(** * The shardcast downloader loop of prime-rl

    A shallow embedding of [main] in
    [src/zeroband/inference/shardcast_downloader.py]: the polling loop that
    plans a set of target versions from the remote catalog, fetches the ones
    that are not on disk yet, keeps a set of missing versions to retry and
    deletes the version that fell out of the retention horizon.

    The loop is written in a small state-and-exception monad.  The store
    holds the three local variables of [main] that change
    ([logged_versions], [missing_versions], [backlog_version]), the state of
    the outside world (the remote side behind the [ClientNode] and the files
    under [output_dir]) and the trace of what the loop did: the log records
    it emitted and the calls it made to the client and to the filesystem. *)

From stdpp Require Import base decidable countable gmap sets list sorting strings.
From Stdlib Require Import ZArith Lia.

Open Scope Z_scope.

(** ** Python values used by the loop *)

(** [sorted(xs)] on integers. *)
Definition sorted (xs : list Z) : list Z := merge_sort Z.le xs.

(** [xs[start:]]: a negative [start] counts from the end, and both ends are
    clamped to the list. *)
Definition slice_from {A} (xs : list A) (start : Z) : list A :=
  let n := Z.of_nat (length xs) in
  let lo := if start <? 0 then Z.max (start + n) 0 else Z.min start n in
  drop (Z.to_nat lo) xs.

(** Exceptions, as far as the handlers of the loop tell them apart:
    [except FileNotFoundError] and [except Exception].  What is not an
    [Exception] (an interrupt, a kill) ends the process from outside and is
    not part of the model. *)
Inductive exn : Type :=
  | FileNotFoundError
  | OtherException (name : string).

Inductive outcome (A : Type) : Type :=
  | Normal (a : A)
  | Raised (e : exn).
Arguments Normal {A} a.
Arguments Raised {A} e.

(** ** Files under [output_dir]

    [step_{v}] is the directory of version [v]; it holds the payload
    [step_{v}/model.safetensors] and the marker [step_{v}/stable]. *)
Inductive path : Type :=
  | step_dir (v : Z)
  | model_safetensors (v : Z)
  | stable (v : Z).

#[global] Instance path_eq_dec : EqDecision path.
Proof. solve_decision. Defined.

Definition path_code (p : path) : Z + (Z + Z) :=
  match p with
  | step_dir v => inl v
  | model_safetensors v => inr (inl v)
  | stable v => inr (inr v)
  end.

Definition path_of_code (c : Z + (Z + Z)) : path :=
  match c with
  | inl v => step_dir v
  | inr (inl v) => model_safetensors v
  | inr (inr v) => stable v
  end.

#[global] Instance path_countable : Countable path.
Proof.
  apply (inj_countable' path_code path_of_code).
  intros []; reflexivity.
Defined.

(** The directory a file lives in. *)
Definition parent (p : path) : path :=
  match p with
  | step_dir v | model_safetensors v | stable v => step_dir v
  end.

(** ** What the loop logs and calls *)

Inductive level : Type := INFO | WARNING.

Inductive message : Type :=
  | No_versions_available
  | Version_not_found_on_server (v : Z)
  | Version_already_exists_locally (v : Z)
  | Downloading_version (v : Z)
  | Downloaded_version (v : Z)
  | Deleting_expired_version (v : Z)
  | Expired_version_not_found (v : Z)
  | Error_deleting_expired_version (v : Z) (e : exn)
  | Error_downloading_version (v : Z) (e : exn)
  | Current_versions (available target missing : list Z).

Inductive event : Type :=
  | Log (lvl : level) (m : message)
  | Call_list_available_versions
  | Call_download_version (v : Z)
  | Call_touch (p : path)
  | Call_unlink (p : path)
  | Call_sleep.

(** ** The client

    [shardcast.ClientNode] is an external library.  Its two methods are
    taken as they are used: [list_available_versions] answers with the
    names on the server, of which the loop keeps [int(x[1:])], the integer
    after the one-letter prefix (the model takes these integers);
    [download_version] answers with the path it wrote or with [None], and
    may change the files as it likes.  Either call may raise.  [Net] is the
    state of the remote side, which changes on its own between calls. *)
Record ClientNode (Net : Type) : Type := {
  list_available_versions : Net -> Net * outcome (list Z);
  download_version :
    Z -> path -> Net -> gset path -> Net * gset path * outcome (option path)
}.
Arguments list_available_versions {Net} _ _.
Arguments download_version {Net} _ _ _ _ _.

(** ** The store *)

Record Store (Net : Type) : Type := mkStore {
  logged_versions : gset Z;
  missing_versions : gset Z;
  backlog_version : Z;
  net : Net;
  fs : gset path;
  trace : list event
}.
Arguments mkStore {Net} _ _ _ _ _ _.
Arguments logged_versions {Net} _.
Arguments missing_versions {Net} _.
Arguments backlog_version {Net} _.
Arguments net {Net} _.
Arguments fs {Net} _.
Arguments trace {Net} _.

Section Downloader.

Context {Net : Type}.

Local Abbreviation St := (Store Net).

Definition set_logged (f : gset Z -> gset Z) (s : St) : St :=
  mkStore (f (logged_versions s)) (missing_versions s) (backlog_version s)
          (net s) (fs s) (trace s).
Definition set_missing (f : gset Z -> gset Z) (s : St) : St :=
  mkStore (logged_versions s) (f (missing_versions s)) (backlog_version s)
          (net s) (fs s) (trace s).
Definition set_backlog (f : Z -> Z) (s : St) : St :=
  mkStore (logged_versions s) (missing_versions s) (f (backlog_version s))
          (net s) (fs s) (trace s).
Definition set_world (n : Net) (files : gset path) (s : St) : St :=
  mkStore (logged_versions s) (missing_versions s) (backlog_version s)
          n files (trace s).
Definition emit (e : event) (s : St) : St :=
  mkStore (logged_versions s) (missing_versions s) (backlog_version s)
          (net s) (fs s) (trace s ++ [e]).

(** ** The monad: a store that survives a raised exception *)

Definition M (A : Type) : Type := St -> St * outcome A.

Definition ret {A} (a : A) : M A := fun s => (s, Normal a).

Definition bind {A B} (m : M A) (k : A -> M B) : M B :=
  fun s =>
    match m s with
    | (s', Normal a) => k a s'
    | (s', Raised e) => (s', Raised e)
    end.

Definition raise {A} (e : exn) : M A := fun s => (s, Raised e).

(** [try: m except e: h e]. *)
Definition try_except {A} (m : M A) (h : exn -> M A) : M A :=
  fun s =>
    match m s with
    | (s', Normal a) => (s', Normal a)
    | (s', Raised e) => h e s'
    end.

Definition get {A} (proj : St -> A) : M A := fun s => (s, Normal (proj s)).
Definition modify (f : St -> St) : M unit := fun s => (f s, Normal tt).
Definition when (b : bool) (m : M unit) : M unit := if b then m else ret tt.

End Downloader.

Arguments M : clear implicits.

Declare Scope py_scope.
Delimit Scope py_scope with py.
Notation "x <- m ;; k" := (bind m (fun x => k))
  (at level 100, m at next level, right associativity) : py_scope.
Notation "m ;; k" := (bind m (fun _ => k))
  (at level 100, right associativity) : py_scope.
Open Scope py_scope.

(** ** The loop *)

Section Main.

Context {Net : Type}.
Variable client : ClientNode Net.
Variable versions_to_keep : Z.
Variable window_size : Z.

Local Abbreviation St := (Store Net).

Definition logger_info (m : message) : M Net unit :=
  modify (Net:=Net) (emit (Log INFO m)).
Definition logger_warning (m : message) : M Net unit :=
  modify (Net:=Net) (emit (Log WARNING m)).
Definition time_sleep : M Net unit := modify (Net:=Net) (emit Call_sleep).

(** [Path.exists()], as far as it answers: whether the file is there.  An
    [OSError] of the call itself (a directory that may not be read) is not
    part of the files as they are modelled here. *)
Definition path_exists (p : path) : M Net bool :=
  get (Net:=Net) (fun s => bool_decide (p ∈ fs s)).

(** [Path.touch()]: creates the file, or leaves an existing one; raises
    [FileNotFoundError] when the directory is not there. *)
Definition path_touch (p : path) : M Net unit :=
  fun s : St =>
    let s := emit (Call_touch p) s in
    if bool_decide (parent p ∈ fs s)
    then (set_world (net s) ({[p]} ∪ fs s) s, Normal tt)
    else (s, Raised FileNotFoundError).

(** [Path.unlink()]: raises [FileNotFoundError] when the file is not there. *)
Definition path_unlink (p : path) : M Net unit :=
  fun s : St =>
    let s := emit (Call_unlink p) s in
    if bool_decide (p ∈ fs s)
    then (set_world (net s) (fs s ∖ {[p]}) s, Normal tt)
    else (s, Raised FileNotFoundError).

Definition client_list_available_versions : M Net (list Z) :=
  fun s : St =>
    let s := emit Call_list_available_versions s in
    let '(n, r) := list_available_versions client (net s) in
    (set_world n (fs s) s, r).

Definition client_download_version (v : Z) (dest : path) : M Net (option path) :=
  fun s : St =>
    let s := emit (Call_download_version v) s in
    let '(n, files, r) := download_version client v dest (net s) (fs s) in
    (set_world n files s, r).

(** [for x in xs: body x]. *)
Fixpoint for_each {A} (xs : list A) (body : A -> M Net unit) : M Net unit :=
  match xs with
  | [] => ret tt
  | x :: rest => body x;; for_each rest body
  end.

(** Lines 68 to 77: the deletion of the version that left the retention
    horizon, both [unlink] calls inside one [try]. *)
Definition delete_expired (version : Z) : M Net unit :=
  let expired := version - versions_to_keep in
  try_except
    (logger_info (Deleting_expired_version expired);;
     path_unlink (model_safetensors expired);;
     path_unlink (stable expired))
    (fun e =>
       match e with
       | FileNotFoundError =>
           logger_warning (Expired_version_not_found expired)
       | _ => logger_warning (Error_deleting_expired_version expired e)
       end).

(** Lines 47 to 82: the body of [for version in sorted(target_versions)]. *)
Definition main_for_body (available_versions : list Z) (version : Z) : M Net unit :=
  let safetensors_filepath := model_safetensors version in
  if negb (bool_decide (version ∈ available_versions)) then
    logged <- get logged_versions;;
    when (negb (bool_decide (version ∈ logged)))
      (logger_warning (Version_not_found_on_server version);;
       modify (set_logged (union {[version]})));;
    modify (set_missing (union {[version]}))
  else
    present <- path_exists safetensors_filepath;;
    if (present : bool) then
      logged <- get logged_versions;;
      when (negb (bool_decide (version ∈ logged)))
        (logger_info (Version_already_exists_locally version);;
         modify (set_logged (union {[version]})));;
      missing <- get missing_versions;;
      when (bool_decide (version ∈ missing))
        (modify (set_missing (fun m => m ∖ {[version]})))
    else
      logger_info (Downloading_version version);;
      try_except
        (filepath <- client_download_version version safetensors_filepath;;
         logger_info (Downloaded_version version);;
         match filepath with
         | Some _ =>
             path_touch (stable version);;
             when (negb (versions_to_keep =? -1)) (delete_expired version);;
             missing <- get missing_versions;;
             when (bool_decide (version ∈ missing))
               (modify (set_missing (fun m => m ∖ {[version]})))
         | None => ret tt
         end)
        (fun e =>
           logger_warning (Error_downloading_version version e);;
           modify (set_missing (union {[version]}))).

(** Lines 40 to 45: the target set of a tick with a catalog that is not
    empty.  The backlog cursor is added and moved on when it is not [-1]. *)
Definition window (available_versions : list Z) : list Z :=
  slice_from available_versions (- window_size).

Definition plan_targets (available_versions : list Z) : M Net (gset Z) :=
  let target_versions : gset Z := list_to_set (window available_versions) in
  backlog <- get backlog_version;;
  target_versions <-
    (if negb (backlog =? -1)
     then modify (set_backlog (fun b => b + 1));;
          ret (target_versions ∪ {[backlog]})
     else ret target_versions);;
  missing <- get missing_versions;;
  ret (target_versions ∪ missing).

(** Lines 32 to 84: the body of [while True]. *)
Definition main_while_body : M Net unit :=
  listed <- client_list_available_versions;;
  let available_versions := sorted listed in
  match available_versions with
  | [] =>
      logged <- get logged_versions;;
      when (negb (bool_decide (-1 ∈ logged)))
        (logger_warning No_versions_available;;
         modify (set_logged (union {[-1]})));;
      time_sleep
  | _ :: _ =>
      target_versions <- plan_targets available_versions;;
      for_each (sorted (elements target_versions))
               (main_for_body available_versions);;
      missing <- get missing_versions;;
      logger_info (Current_versions available_versions
                     (sorted (elements target_versions))
                     (sorted (elements missing)));;
      time_sleep
  end.

(** [while True], cut after [ticks] rounds. *)
Fixpoint main_loop (ticks : nat) : M Net unit :=
  match ticks with
  | O => ret tt
  | S n => main_while_body;; main_loop n
  end.

(** The store [main] starts from: nothing logged, nothing missing. *)
Definition initial (backlog : Z) (net0 : Net) (fs0 : gset path) : St :=
  mkStore ∅ ∅ backlog net0 fs0 [].

Definition main (backlog : Z) (net0 : Net) (fs0 : gset path) (ticks : nat)
  : St * outcome unit :=
  main_loop ticks (initial backlog net0 fs0).

End Main.

Arguments main_for_body {Net} client versions_to_keep available_versions version _.
Arguments delete_expired {Net} versions_to_keep version _.
Arguments plan_targets {Net} window_size available_versions _.
Arguments main_while_body {Net} client versions_to_keep window_size _.
Arguments main_loop {Net} client versions_to_keep window_size ticks _.
Arguments main {Net} client versions_to_keep window_size backlog net0 fs0 ticks.

(** ** Observations on the trace *)

(** The events a step added to the trace. *)
Definition added_events {Net} (before after : Store Net) : list event :=
  drop (length (trace before)) (trace after).

(** A log record that the loop guards by [logged_versions], and the key it
    is guarded by: the version for "not found on server" and "already exists
    locally", [-1] for "No versions available". *)
Definition logged_key (e : event) : option Z :=
  match e with
  | Log _ (Version_not_found_on_server v) => Some v
  | Log _ (Version_already_exists_locally v) => Some v
  | Log _ No_versions_available => Some (-1)
  | _ => None
  end.

Definition guarded_logs (key : Z) (tr : list event) : list event :=
  filter (fun e => logged_key e = Some key) tr.

Definition is_not_found (v : Z) (e : event) : bool :=
  match e with
  | Log _ (Version_not_found_on_server u) => bool_decide (u = v)
  | _ => false
  end.

Definition is_already_exists (v : Z) (e : event) : bool :=
  match e with
  | Log _ (Version_already_exists_locally u) => bool_decide (u = v)
  | _ => false
  end.

Definition is_no_versions (e : event) : bool :=
  match e with
  | Log _ No_versions_available => true
  | _ => false
  end.

Definition count (p : event -> bool) (tr : list event) : nat :=
  length (filter (fun e => p e = true) tr).

(** The target lists of the ticks that planned one, oldest first: each such
    tick ends with the "Current available_versions" record of line 83. *)
Fixpoint planned (tr : list event) : list (list Z) :=
  match tr with
  | [] => []
  | Log _ (Current_versions _ target _) :: rest => target :: planned rest
  | _ :: rest => planned rest
  end.

(** ** Clients for the examples *)

(** The remote side is a script: the catalogs the server will answer with,
    one for each poll.  [fetch] tells how the download of a version ends; a
    download that returns a path has written the payload (and its
    directory). *)
Definition scripted_client (fetch : Z -> outcome (option path))
  : ClientNode (list (list Z)) :=
  {| list_available_versions := fun n =>
       match n with
       | [] => ([], Normal [])
       | catalog :: later => (later, Normal catalog)
       end;
     download_version := fun v dest n files =>
       match fetch v with
       | Normal (Some _) => (n, {[parent dest; dest]} ∪ files, Normal (Some dest))
       | r => (n, files, r)
       end |}.

Definition fetch_ok (v : Z) : outcome (option path) :=
  Normal (Some (model_safetensors v)).
Definition fetch_none (v : Z) : outcome (option path) := Normal None.
Definition fetch_fails (v : Z) : outcome (option path) :=
  Raised (OtherException "ConnectionError").
(** Fails for [bad], succeeds for the others. *)
Definition fetch_fails_on (bad : Z) (v : Z) : outcome (option path) :=
  if bool_decide (v = bad) then fetch_fails v else fetch_ok v.

(** The store the body of the [for] loop leaves when the download of
    [version] raised [e]: the handler of line 80 has logged the warning and
    added the version to the missing set. *)
Definition after_failed_fetch {Net} (version : Z) (e : exn) (n' : Net)
    (files' : gset path) (s : Store Net) : Store Net :=
  mkStore (logged_versions s) ({[version]} ∪ missing_versions s)
    (backlog_version s) n' files'
    (trace s ++ [Log INFO (Downloading_version version);
                 Call_download_version version;
                 Log WARNING (Error_downloading_version version e)]).

(** ** Statements about programs of the monad *)

(** [returns m]: [m] ends without an exception, from every store. *)
Definition returns {Net A} (m : M Net A) : Prop :=
  forall s, exists a, snd (m s) = Normal a.

(** [relates R m]: the store [m] ends in is [R]-related to the one it
    started from, whether [m] returns or raises. *)
Definition relates {Net A} (R : Store Net -> Store Net -> Prop) (m : M Net A)
  : Prop :=
  forall s, R s (fst (m s)).

(** Every guarded log record was emitted at most once, and only for a key
    that is in [logged_versions]. *)
Definition logged_once {Net} (s : Store Net) : Prop :=
  forall key,
    (key ∉ logged_versions s -> guarded_logs key (trace s) = []) /\
    (length (guarded_logs key (trace s)) <= 1)%nat.

Definition keeps_logged_once {Net} (s s' : Store Net) : Prop :=
  logged_once s -> logged_once s'.

Arguments guarded_logs : simpl never.

(** ** The result of planning, in closed form

    What [plan_targets] returns and what it leaves in the store; the two
    are shown equal to the program in [plan_targets_eq]. *)
Definition target_set {Net} (window_size : Z) (available_versions : list Z)
    (s : Store Net) : gset Z :=
  list_to_set (window window_size available_versions)
  ∪ (if backlog_version s =? -1 then ∅ else {[backlog_version s]})
  ∪ missing_versions s.

Definition advance_backlog {Net} (s : Store Net) : Store Net :=
  if backlog_version s =? -1 then s else set_backlog (fun b => b + 1) s.

(** The store in which the [for] loop of a tick starts, when the poll
    answered [n'] and the catalog: the poll is on the trace, the cursor has
    moved. *)
Definition after_planning {Net} (n' : Net) (s : Store Net) : Store Net :=
  advance_backlog (set_world n' (fs s) (emit Call_list_available_versions s)).

(** The store in which a tick ends after its [for] loop ended in [s3]. *)
Definition after_tick {Net} (available_versions : list Z) (targets : gset Z)
    (s3 : Store Net) : Store Net :=
  emit Call_sleep
    (emit (Log INFO (Current_versions available_versions
                       (sorted (elements targets))
                       (sorted (elements (missing_versions s3))))) s3).

(** The data model's condition on the files: a version that has its marker
    has its payload. *)
Definition marker_implies_payload (files : gset path) : Prop :=
  forall v, stable v ∈ files -> model_safetensors v ∈ files.

(** What the body of the [for] loop leaves alone: the cursor and the
    planning records on the trace. *)
Definition same_plan {Net} (s s' : Store Net) : Prop :=
  backlog_version s' = backlog_version s /\
  planned (trace s') = planned (trace s).

(** The cursor started at [b]: it has moved by one for each tick that
    planned, and the target list of such a tick holds the cursor of its
    time. *)
Definition cursor_swept {Net} (b : Z) (s : Store Net) : Prop :=
  backlog_version s = b + Z.of_nat (length (planned (trace s))) /\
  forall (k : nat) targets,
    planned (trace s) !! k = Some targets -> b + Z.of_nat k ∈ targets.

(** [logged_versions] only grows. *)
Definition logged_grows {Net} (s s' : Store Net) : Prop :=
  logged_versions s ⊆ logged_versions s'.

(** Whether [v] is in the missing set is the same in both stores. *)
Definition same_missing_at {Net} (v : Z) (s s' : Store Net) : Prop :=
  v ∈ missing_versions s <-> v ∈ missing_versions s'.

(** ** Stores for the examples *)

(** Nothing on disk, nothing logged, no backlog; the server has no answer
    scripted. *)
Definition fresh_store : Store (list (list Z)) := initial (-1) [] ∅.

(** Version 7 is on disk, payload and marker. *)
Definition disk_with_7 : gset path :=
  {[step_dir 7; model_safetensors 7; stable 7]}.

(** The marker of version 5 is on disk without its payload. *)
Definition lone_marker_store : Store (list (list Z)) :=
  initial (-1) [] {[step_dir 5; stable 5]}.

(** Version 3 is on disk from an earlier run; the server lists it only from
    its second answer on. *)
Definition disk_with_3 : gset path :=
  {[step_dir 3; model_safetensors 3; stable 3]}.
Definition late_catalogs : list (list Z) := [[10]; [3; 10]].

#[global] Instance exn_eq_dec : EqDecision exn.
Proof. solve_decision. Defined.
#[global] Instance level_eq_dec : EqDecision level.
Proof. solve_decision. Defined.
#[global] Instance message_eq_dec : EqDecision message.
Proof. solve_decision. Defined.
#[global] Instance event_eq_dec : EqDecision event.
Proof. solve_decision. Defined.

(** What the data model asks of a client: a download keeps the condition
    on the files, and when it returns a path the payload is at the
    destination. *)
Definition well_behaved {Net} (client : ClientNode Net) : Prop :=
  forall v n files n' files' r,
    download_version client v (model_safetensors v) n files = (n', files', r) ->
    (marker_implies_payload files -> marker_implies_payload files') /\
    (forall p, r = Normal (Some p) -> model_safetensors v ∈ files').

Definition keeps_marker_implies_payload {Net} (s s' : Store Net) : Prop :=
  marker_implies_payload (fs s) -> marker_implies_payload (fs s').

(** What the [for] loop of a tick may add to the missing set: versions of
    [targets] only. *)
Definition missing_within {Net} (targets : gset Z) (s s' : Store Net) : Prop :=
  missing_versions s' ⊆ missing_versions s ∪ targets.

(** * The topology of a distributed run: [zeroband/training/world_info.py] *)

Module WorldInfo.

(** The exceptions the constructor can end with. *)
Inductive error : Type :=
  | AssertionError (msg : string)
  | ZeroDivisionError
  | IndexError.

Inductive result (A : Type) : Type :=
  | Ok (a : A)
  | Raise (e : error).
Arguments Ok {A} a.
Arguments Raise {A} e.

Definition bind {A B} (r : result A) (k : A -> result B) : result B :=
  match r with
  | Ok a => k a
  | Raise e => Raise e
  end.

(** [assert b, msg]. *)
Definition assert (b : bool) (msg : string) : result unit :=
  if b then Ok tt else Raise (AssertionError msg).

(** [zeroband.training.envs] is not among the sources: the values the
    constructor reads from it are taken as they are used, integers and
    optional lists of integers. *)
Record Envs : Type := {
  RANK : Z;
  WORLD_SIZE : Z;
  LOCAL_RANK : Z;
  LOCAL_WORLD_SIZE : Z;
  NODE_GROUP_SIZES : option (list Z);
  CUDA_VISIBLE_DEVICES : option (list Z)
}.

(** The attributes of a [WorldInfo] object. *)
Record t : Type := mk {
  rank : Z;
  world_size : Z;
  node_group_sizes : option (list Z);
  local_rank : Z;
  local_world_size : Z;
  node_idx : Z;
  num_nodes : Z;
  gpu_ids : list Z;
  num_gpus : Z
}.

(** [x if x is not None else d]. *)
Definition if_not_none (x : option Z) (d : Z) : Z :=
  match x with
  | Some v => v
  | None => d
  end.

(** Truth of an optional list: [None] and the empty list are false. *)
Definition truthy (x : option (list Z)) : bool :=
  match x with
  | Some (_ :: _) => true
  | _ => false
  end.

(** [x or y] on optional lists. *)
Definition py_or (x y : option (list Z)) : option (list Z) :=
  if truthy x then x else y.

(** [sum(xs)]. *)
Definition sum (xs : list Z) : Z := fold_left Z.add xs 0.

(** [a // b] and [a % b]: floor division, [ZeroDivisionError] on zero. *)
Definition floordiv (a b : Z) : result Z :=
  if b =? 0 then Raise ZeroDivisionError else Ok (a / b).
Definition py_mod (a b : Z) : result Z :=
  if b =? 0 then Raise ZeroDivisionError else Ok (a mod b).

(** [xs[i]]: a negative index counts from the end. *)
Definition getitem (xs : list Z) (i : Z) : result Z :=
  let n := Z.of_nat (length xs) in
  let j := if i <? 0 then i + n else i in
  if (0 <=? j) && (j <? n)
  then match xs !! Z.to_nat j with
       | Some x => Ok x
       | None => Raise IndexError
       end
  else Raise IndexError.

(** [list(range(n))]. *)
Definition range (n : nat) : list Z := Z.of_nat <$> seq 0 n.

(** Lines 37 to 46: the [for ... else] over [enumerate(node_group_sizes)];
    [Some] is the [break], with the local rank, the size of the group and
    its index; [None] is the [else] of the loop. *)
Fixpoint find_group (rank cumulative : Z) (idx : nat) (sizes : list Z)
  : option (Z * Z * nat) :=
  match sizes with
  | [] => None
  | size :: rest =>
      if rank <? cumulative + size
      then Some (rank - cumulative, size, idx)
      else find_group rank (cumulative + size) (S idx) rest
  end.

(** Lines 58 to 66. *)
Definition _check_world_info (w : t) : result unit :=
  bind (assert ((0 <=? local_rank w) && (local_rank w <? local_world_size w)) "")
    (fun _ =>
  bind (assert ((0 <=? rank w) && (rank w <? world_size w)) "") (fun _ =>
  bind (assert (local_world_size w <=? world_size w) "") (fun _ =>
  match node_group_sizes w with
  | None =>
      bind (py_mod (world_size w) (local_world_size w)) (fun r =>
      assert (r =? 0) "")
  | Some sizes =>
      bind (assert (sum sizes =? world_size w) "") (fun _ =>
      bind (getitem sizes (node_idx w)) (fun size =>
      assert (size =? local_world_size w) ""))
  end))).

(** Lines 18 to 56: [WorldInfo.__init__]; [device_count] is what
    [torch.cuda.device_count()] answers. *)
Definition __init__ (envs : Envs) (device_count : nat)
    (rank world_size local_rank local_world_size : option Z)
    (node_group_sizes : option (list Z)) : result t :=
  let self_rank := if_not_none rank (RANK envs) in
  let self_world_size := if_not_none world_size (WORLD_SIZE envs) in
  let self_node_group_sizes :=
    py_or node_group_sizes (NODE_GROUP_SIZES envs) in
  bind
    (match self_node_group_sizes with
     | Some ((_ :: _) as sizes) =>
         bind (assert (sum sizes =? self_world_size)
                 "NODE_GROUP_SIZES must sum to WORLD_SIZE") (fun _ =>
         match find_group self_rank 0 0 sizes with
         | Some (lr, size, idx) =>
             Ok (lr, size, Z.of_nat idx, Z.of_nat (length sizes))
         | None =>
             Raise (AssertionError "Rank out of range of NODE_GROUP_SIZES")
         end)
     | _ =>
         let lr := if_not_none local_rank (LOCAL_RANK envs) in
         let lws := if_not_none local_world_size (LOCAL_WORLD_SIZE envs) in
         bind (floordiv self_world_size lws) (fun nodes =>
         bind (floordiv self_rank lws) (fun idx =>
         Ok (lr, lws, idx, nodes)))
     end)
    (fun '(lr, lws, idx, nodes) =>
       let ids :=
         match CUDA_VISIBLE_DEVICES envs with
         | Some ((_ :: _) as ids) => ids
         | _ => range device_count
         end in
       let self :=
         mk self_rank self_world_size self_node_group_sizes lr lws idx nodes
            ids (Z.of_nat (length ids)) in
       bind (_check_world_info self) (fun _ => Ok self)).

(** Lines 80 to 87. *)
Definition json (w : t) : list (string * Z) :=
  [("rank", rank w); ("world_size", world_size w);
   ("local_rank", local_rank w); ("local_world_size", local_world_size w);
   ("num_nodes", num_nodes w)].

(** Lines 94 to 116: the module keeps one instance in [_WORLD_INFO]; the
    functions take its value and give the new one back. *)
Definition get_world_info (envs : Envs) (device_count : nat)
    (rank world_size local_rank local_world_size : option Z)
    (node_group_sizes : option (list Z)) (_WORLD_INFO : option t)
  : option t * result t :=
  match _WORLD_INFO with
  | None =>
      match __init__ envs device_count rank world_size local_rank
              local_world_size node_group_sizes with
      | Ok w => (Some w, Ok w)
      | Raise e => (None, Raise e)
      end
  | Some w => (Some w, Ok w)
  end.

Definition reset_world_info (_WORLD_INFO : option t) : option t := None.

(** An environment for the examples: four ranks on one node. *)
Definition envs4 : Envs :=
  Build_Envs 1 4 1 4 None None.

End WorldInfo.

(** * The rows of a parquet table: [zeroband/inference/parquet.py] *)

Module Parquet.

Inductive error : Type :=
  | AssertionError
  | StopIteration.

Inductive result (A : Type) : Type :=
  | Ok (a : A)
  | Raise (e : error).
Arguments Ok {A} a.
Arguments Raise {A} e.

Definition bind {A B} (r : result A) (k : A -> result B) : result B :=
  match r with
  | Ok a => k a
  | Raise e => Raise e
  end.

Definition assert (b : bool) : result unit :=
  if b then Ok tt else Raise AssertionError.

(** The attributes [get_parquet_table] reads of a [vllm.RequestOutput] and
    of its completions. *)
Module CompletionOutput.
Record t : Type := mk {
  index : Z;
  token_ids : list Z;
  text : string
}.
End CompletionOutput.

Module RequestOutput.
Record t : Type := mk {
  request_id : string;
  prompt_token_ids : list Z;
  outputs : list CompletionOutput.t
}.
End RequestOutput.

(** [zeroband.inference.rewards] is not among the sources: the attributes
    of a [RequestRewards] and of its rewards are taken as
    [get_parquet_table] reads them.  The numbers are copied, never looked
    at: [Float] is whatever they are. *)
Module CompletionReward.
Record t (Float : Type) : Type := mk {
  completion_id : Z;
  advantage : Float;
  reward : Float;
  task_reward : Float;
  length_penalty : Float
}.
Arguments mk {Float} _ _ _ _ _.
Arguments completion_id {Float} _.
Arguments advantage {Float} _.
Arguments reward {Float} _.
Arguments task_reward {Float} _.
Arguments length_penalty {Float} _.
End CompletionReward.

Module RequestRewards.
Record t (Float : Type) : Type := mk {
  request_id : string;
  rewards : list (CompletionReward.t Float);
  task_type : string
}.
Arguments mk {Float} _ _ _.
Arguments request_id {Float} _.
Arguments rewards {Float} _.
Arguments task_type {Float} _.
End RequestRewards.

(** A record of the table, one field for each key of the dictionary; the
    key [acceptance_metadata] is there only when metadata was given. *)
Record record (Float Meta : Type) : Type := mk_record {
  input_tokens : list Z;
  output_tokens : list Z;
  prompt : string;
  completion : string;
  advantages : Float;
  rewards : Float;
  task_rewards : Float;
  length_penalties : Float;
  proofs : list Byte.byte;
  step : Z;
  target_lengths : Z;
  task_type : string;
  acceptance_metadata : option Meta
}.
Arguments mk_record {Float Meta} _ _ _ _ _ _ _ _ _ _ _ _ _.
Arguments input_tokens {Float Meta} _.
Arguments output_tokens {Float Meta} _.
Arguments prompt {Float Meta} _.
Arguments completion {Float Meta} _.
Arguments advantages {Float Meta} _.
Arguments rewards {Float Meta} _.
Arguments task_rewards {Float Meta} _.
Arguments length_penalties {Float Meta} _.
Arguments proofs {Float Meta} _.
Arguments step {Float Meta} _.
Arguments target_lengths {Float Meta} _.
Arguments task_type {Float Meta} _.
Arguments acceptance_metadata {Float Meta} _.

(** What the loops change: the two iterators and the list of records. *)
Record state (Float Meta : Type) : Type := mk_state {
  proof_iter : list (list Byte.byte);
  meta_iter : option (list Meta);
  records : list (record Float Meta)
}.
Arguments mk_state {Float Meta} _ _ _.
Arguments proof_iter {Float Meta} _.
Arguments meta_iter {Float Meta} _.
Arguments records {Float Meta} _.

(** [next(it)]. *)
Definition next {A} (it : list A) : result (A * list A) :=
  match it with
  | [] => Raise StopIteration
  | x :: rest => Ok (x, rest)
  end.

Section Table.

Context {Float Meta : Type}.

(** Lines 26 to 43: the body of the inner [for]. *)
Definition inner_body (request_output : RequestOutput.t)
    (request_rewards : RequestRewards.t Float) (prompt_ : string)
    (target_length step_ : Z)
    (pair : CompletionOutput.t * CompletionReward.t Float)
    (st : state Float Meta) : result (state Float Meta) :=
  let '(output, reward_) := pair in
  bind (assert (CompletionOutput.index output
                =? CompletionReward.completion_id reward_)) (fun _ =>
  bind (if (1 <? length (CompletionOutput.token_ids output))%nat
        then next (proof_iter st)
        else Ok ([], proof_iter st)) (fun '(proof, proofs_left) =>
  bind (match meta_iter st with
        | Some metas =>
            bind (next metas) (fun '(m, metas_left) =>
            Ok (Some m, Some metas_left))
        | None => Ok (None, None)
        end) (fun '(meta, metas_left) =>
  Ok (mk_state proofs_left metas_left
        (records st ++
           [mk_record
              (RequestOutput.prompt_token_ids request_output)
              (CompletionOutput.token_ids output)
              prompt_
              (CompletionOutput.text output)
              (CompletionReward.advantage reward_)
              (CompletionReward.reward reward_)
              (CompletionReward.task_reward reward_)
              (CompletionReward.length_penalty reward_)
              proof
              step_
              target_length
              (RequestRewards.task_type request_rewards)
              meta]))))).

(** [for x in xs: body], with the state passed on and the first exception
    ending the loop. *)
Fixpoint for_each_row {A} (xs : list A)
    (body : A -> state Float Meta -> result (state Float Meta))
    (st : state Float Meta) : result (state Float Meta) :=
  match xs with
  | [] => Ok st
  | x :: rest => bind (body x st) (for_each_row rest body)
  end.

(** Lines 24 to 43: the body of the outer [for]. *)
Definition outer_body (step_ : Z)
    (item : RequestOutput.t * (RequestRewards.t Float * (string * Z)))
    (st : state Float Meta) : result (state Float Meta) :=
  let '(request_output, (request_rewards, (prompt_, target_length))) := item in
  bind (assert (String.eqb (RequestOutput.request_id request_output)
                  (RequestRewards.request_id request_rewards))) (fun _ =>
  for_each_row
    (zip (RequestOutput.outputs request_output)
         (RequestRewards.rewards request_rewards))
    (inner_body request_output request_rewards prompt_ target_length step_)
    st).

(** Lines 18 to 43: the records that are handed to
    [pa.Table.from_pylist]. *)
Definition collect_records (request_outputs : list RequestOutput.t)
    (request_rewards : list (RequestRewards.t Float))
    (prompts : list string) (proofs_ : list (list Byte.byte)) (step_ : Z)
    (target_lengths_ : list Z) (acceptance_metadata_ : option (list Meta))
  : result (list (record Float Meta)) :=
  bind (for_each_row
          (zip request_outputs
             (zip request_rewards (zip prompts target_lengths_)))
          (outer_body step_)
          (mk_state proofs_ acceptance_metadata_ []))
       (fun st => Ok (records st)).

(** Lines 8 to 45; [from_pylist] is [pa.Table.from_pylist] with the schema
    of the table, which is pyarrow's. *)
Definition get_parquet_table {Table : Type}
    (from_pylist : list (record Float Meta) -> Table)
    (request_outputs : list RequestOutput.t)
    (request_rewards : list (RequestRewards.t Float))
    (prompts : list string) (proofs_ : list (list Byte.byte)) (step_ : Z)
    (target_lengths_ : list Z) (acceptance_metadata_ : option (list Meta))
  : result Table :=
  bind (collect_records request_outputs request_rewards prompts proofs_ step_
          target_lengths_ acceptance_metadata_)
       (fun rs => Ok (from_pylist rs)).

(** A record took a proof from the iterator: its completion has more than
    one token. *)
Definition has_proof (r : record Float Meta) : bool :=
  (1 <? length (output_tokens r))%nat.

(** The completions a call goes through: request by request, as far as
    the shortest of the four lists, and within a request as far as the
    shorter of its outputs and its rewards. *)
Definition visited (request_outputs : list RequestOutput.t)
    (request_rewards : list (RequestRewards.t Float))
    (prompts : list string) (target_lengths_ : list Z)
  : list (CompletionOutput.t * CompletionReward.t Float) :=
  concat
    (map (fun item : RequestOutput.t * (RequestRewards.t Float * (string * Z)) =>
            zip (RequestOutput.outputs (fst item))
                (RequestRewards.rewards (fst (snd item))))
       (zip request_outputs
          (zip request_rewards (zip prompts target_lengths_)))).

(** What a record takes from the completion it was made for, and the same
    read off the completion and its reward. *)
Definition of_completion (r : record Float Meta)
  : list Z * string * (Float * Float * Float * Float) :=
  (output_tokens r, completion r,
   (advantages r, rewards r, task_rewards r, length_penalties r)).

Definition completion_fields
    (pair : CompletionOutput.t * CompletionReward.t Float)
  : list Z * string * (Float * Float * Float * Float) :=
  (CompletionOutput.token_ids (fst pair), CompletionOutput.text (fst pair),
   (CompletionReward.advantage (snd pair), CompletionReward.reward (snd pair),
    CompletionReward.task_reward (snd pair),
    CompletionReward.length_penalty (snd pair))).

(** A completion takes a proof from the iterator. *)
Definition needs_proof
    (pair : CompletionOutput.t * CompletionReward.t Float) : bool :=
  (1 <? length (CompletionOutput.token_ids (fst pair)))%nat.

(** How far the loops have come: the proofs and the metadata handed out so
    far are in the records, in order, and the rest is in the iterators. *)
Definition handed_out (proofs0 : list (list Byte.byte))
    (metas0 : option (list Meta)) (st : state Float Meta) : Prop :=
  proofs0 = map proofs (filter (fun r => has_proof r = true) (records st))
            ++ proof_iter st /\
  (forall r, r ∈ records st -> has_proof r = false -> proofs r = []) /\
  match metas0 with
  | Some ms0 =>
      exists rest,
        meta_iter st = Some rest /\
        map Some ms0 = map acceptance_metadata (records st) ++ map Some rest
  | None =>
      meta_iter st = None /\
      Forall (fun r => acceptance_metadata r = None) (records st)
  end.

End Table.

End Parquet.

(** ** More clients and data for the examples *)

(** A client whose download returns the path without writing anything,
    and whose server lists nothing. *)
Definition pathless_client : ClientNode unit :=
  {| list_available_versions := fun n => (n, Normal []);
     download_version := fun v dest n files => (n, files, Normal (Some dest)) |}.

(** A client whose server cannot be reached. *)
Definition unreachable_client : ClientNode unit :=
  {| list_available_versions := fun n =>
       (n, Raised (OtherException "ConnectionError"));
     download_version := fun v dest n files => (n, files, Normal None) |}.

(** Version 5 is on disk, payload and marker. *)
Definition disk_with_5 : gset path :=
  {[step_dir 5; model_safetensors 5; stable 5]}.

(** The files after a scripted download of version 7 into [files]. *)
Definition with_payload_7 (files : gset path) : gset path :=
  {[step_dir 7; model_safetensors 7]} ∪ files.

(** One request with two completions, of two tokens and of one. *)
Definition example_output : Parquet.RequestOutput.t :=
  Parquet.RequestOutput.mk "r1" [1; 2]
    [Parquet.CompletionOutput.mk 0 [5; 6] "ab";
     Parquet.CompletionOutput.mk 1 [7] "c"].

Definition example_rewards : Parquet.RequestRewards.t Z :=
  Parquet.RequestRewards.mk "r1"
    [Parquet.CompletionReward.mk 0 10 11 12 13;
     Parquet.CompletionReward.mk 1 20 21 22 23]
    "math".

Definition example_proofs : list (list Byte.byte) :=
  [[Byte.x01]; [Byte.x02]].

Definition example_records : list (Parquet.record Z Z) :=
  [Parquet.mk_record [1; 2] [5; 6] "p" "ab" 10 11 12 13 [Byte.x01] 3 100
     "math" (Some 7);
   Parquet.mk_record [1; 2] [7] "p" "c" 20 21 22 23 [] 3 100 "math" (Some 8)].

(** The catalogs the server answered with in a run of the loop from [s],
    one for each tick, up to the first poll that raised: what the remote
    side did, read off the client at the store each tick starts in. *)
Fixpoint polled {Net} (client : ClientNode Net)
    (versions_to_keep window_size : Z) (s : Store Net) (ticks : nat)
  : list (list Z) :=
  match ticks with
  | O => []
  | S n =>
      match list_available_versions client (net s) with
      | (_, Normal listed) =>
          listed ::
          polled client versions_to_keep window_size
            (fst (main_while_body client versions_to_keep window_size s)) n
      | (_, Raised _) => []
      end
  end.

(** * Properties *)

(** ** Python helpers *)

Lemma slice_from_neg {A} (xs : list A) (k : Z) :
  0 < k -> slice_from xs (- k) = drop (length xs - Z.to_nat k) xs.
Proof.
  intros Hk. unfold slice_from.
  destruct (Z.ltb_spec (- k) 0) as [_|]; [|lia].
  f_equal. lia.
Qed.

Lemma slice_from_zero {A} (xs : list A) : slice_from xs 0 = xs.
Proof. unfold slice_from. cbn. rewrite Z.min_l by lia. reflexivity. Qed.

Lemma sorted_Sorted xs : StronglySorted Z.le (sorted xs).
Proof. apply StronglySorted_merge_sort; apply _. Qed.

Lemma sorted_Permutation xs : sorted xs ≡ₚ xs.
Proof. apply merge_sort_Permutation. Qed.

Lemma elem_of_sorted x xs : x ∈ sorted xs <-> x ∈ xs.
Proof. unfold sorted. rewrite merge_sort_Permutation. reflexivity. Qed.

Lemma sorted_nil_inv xs : sorted xs = [] -> xs = [].
Proof.
  intros H. apply Permutation_nil_r. rewrite <- H. symmetry.
  apply sorted_Permutation.
Qed.

Lemma snoc2 {A} (l : list A) a b : l ++ [a; b] = (l ++ [a]) ++ [b].
Proof. rewrite <- app_assoc. reflexivity. Qed.

Lemma snoc3 {A} (l : list A) a b c :
  l ++ [a; b; c] = ((l ++ [a]) ++ [b]) ++ [c].
Proof. rewrite <- !app_assoc. reflexivity. Qed.

(** ** The window *)

(** For a window size above zero the window is the last [window_size]
    entries of the catalog, all of it when it is shorter... *)
Lemma window_positive (w : Z) (catalog : list Z) :
  0 < w -> window w catalog = drop (length catalog - Z.to_nat w) catalog.
Proof. intros Hw. unfold window. apply slice_from_neg, Hw. Qed.

Lemma window_positive_length (w : Z) (catalog : list Z) :
  0 < w -> length (window w catalog) = Nat.min (Z.to_nat w) (length catalog).
Proof. intros Hw. rewrite window_positive by done. rewrite length_drop. lia. Qed.

(** ... and on a sorted catalog these are its greatest entries. *)
Lemma window_positive_greatest (w : Z) (catalog : list Z) :
  0 < w -> StronglySorted Z.le catalog ->
  forall x y, x ∈ take (length catalog - Z.to_nat w) catalog ->
              y ∈ window w catalog -> x <= y.
Proof.
  intros Hw Hs x y Hx Hy. rewrite window_positive in Hy by done.
  rewrite <- (take_drop (length catalog - Z.to_nat w) catalog) in Hs.
  eapply StronglySorted_app_1_elem_of; eauto.
Qed.

(** C1 (the code departs from the claim at [window_size = 0]).  The slice
    [available_versions[-window_size:]] with [window_size = 0] is
    [available_versions[0:]], the whole catalog, where the claim (and the
    comment above the slice: the latest [window_size] versions) asks for no
    version at all. *)
Theorem window_zero_is_whole_catalog :
  forall catalog : list Z,
    window 0 catalog = catalog /\ window 0 [3; 4; 5] = [3; 4; 5].
Proof.
  intros catalog. unfold window. cbn [Z.opp].
  split; apply slice_from_zero.
Qed.

(** ** Reasoning about programs of the monad *)

Section Monad_rules.

Context {Net : Type}.
Local Abbreviation St := (Store Net).

Lemma returns_unit (m : M Net unit) s : returns m -> snd (m s) = Normal tt.
Proof. intros H. destruct (H s) as [[] Ha]. exact Ha. Qed.

Lemma returns_ret {A} (a : A) : returns (ret (Net:=Net) a).
Proof. intros s. exists a. reflexivity. Qed.

Lemma returns_get {A} (proj : St -> A) : returns (get proj).
Proof. intros s. eexists. reflexivity. Qed.

Lemma returns_modify (f : St -> St) : returns (modify f).
Proof. intros s. eexists. reflexivity. Qed.

Lemma returns_bind {A B} (m : M Net A) (k : A -> M Net B) :
  returns m -> (forall a, returns (k a)) -> returns (bind m k).
Proof.
  intros Hm Hk s. unfold bind. destruct (Hm s) as [a Ha].
  destruct (m s) as [s1 r]; cbn in Ha; subst r. apply Hk.
Qed.

Lemma returns_try_except {A} (m : M Net A) (h : exn -> M Net A) :
  (forall e, returns (h e)) -> returns (try_except m h).
Proof.
  intros Hh s. unfold try_except. destruct (m s) as [s1 [a|e]].
  - exists a. reflexivity.
  - apply Hh.
Qed.

Lemma returns_when (b : bool) (m : M Net unit) :
  returns m -> returns (when b m).
Proof. intros Hm. destruct b; [exact Hm | apply returns_ret]. Qed.

Lemma returns_for_each {A} (xs : list A) (f : A -> M Net unit) :
  (forall x, returns (f x)) -> returns (for_each xs f).
Proof.
  intros Hf. induction xs as [|x xs IH]; cbn.
  - apply returns_ret.
  - apply returns_bind; [apply Hf | intros _; exact IH].
Qed.

Section Preorder.

Variable R : St -> St -> Prop.
Hypothesis R_refl : forall s, R s s.
Hypothesis R_trans : forall s1 s2 s3, R s1 s2 -> R s2 s3 -> R s1 s3.

Lemma relates_ret {A} (a : A) : relates R (ret a).
Proof. intros s. apply R_refl. Qed.

Lemma relates_get {A} (proj : St -> A) : relates R (get proj).
Proof. intros s. apply R_refl. Qed.

Lemma relates_modify (f : St -> St) :
  (forall s, R s (f s)) -> relates R (modify f).
Proof. intros Hf s. apply Hf. Qed.

Lemma relates_bind {A B} (m : M Net A) (k : A -> M Net B) :
  relates R m -> (forall a, relates R (k a)) -> relates R (bind m k).
Proof.
  intros Hm Hk s. unfold bind. specialize (Hm s).
  destruct (m s) as [s1 [a|e]]; cbn in *; [|exact Hm].
  eapply R_trans; [exact Hm | apply Hk].
Qed.

Lemma relates_try_except {A} (m : M Net A) (h : exn -> M Net A) :
  relates R m -> (forall e, relates R (h e)) -> relates R (try_except m h).
Proof.
  intros Hm Hh s. unfold try_except. specialize (Hm s).
  destruct (m s) as [s1 [a|e]]; cbn in *; [exact Hm|].
  eapply R_trans; [exact Hm | apply Hh].
Qed.

Lemma relates_when (b : bool) (m : M Net unit) :
  relates R m -> relates R (when b m).
Proof. intros Hm. destruct b; [exact Hm | apply relates_ret]. Qed.

Lemma relates_for_each {A} (xs : list A) (f : A -> M Net unit) :
  (forall x, x ∈ xs -> relates R (f x)) -> relates R (for_each xs f).
Proof.
  induction xs as [|x xs IH]; intros Hf; cbn.
  - apply relates_ret.
  - apply relates_bind; [apply Hf; left | intros _; apply IH].
    intros y Hy. apply Hf. right. exact Hy.
Qed.

End Preorder.

End Monad_rules.

Ltac returns_step :=
  first
    [ apply returns_ret | apply returns_get | apply returns_modify
    | apply returns_try_except; intros ?
    | apply returns_when
    | apply returns_bind; [|intros ?]
    | match goal with
      | |- returns (if ?b then _ else _) => destruct b
      | |- returns (match ?x with Some _ => _ | None => _ end) => destruct x
      | |- returns (match ?x with FileNotFoundError => _ | _ => _ end) =>
          destruct x
      | |- returns (logger_info _) => apply returns_modify
      | |- returns (logger_warning _) => apply returns_modify
      end ].

(** ** One version of the target set *)

Ltac run_py :=
  cbv [main_for_body delete_expired plan_targets main_while_body
       path_exists path_touch path_unlink
       client_download_version client_list_available_versions
       logger_info logger_warning time_sleep
       bind ret get modify when try_except raise];
  cbn [negb fst snd].

Ltac unfold_store :=
  cbv [emit set_world set_missing set_logged set_backlog];
  cbn [trace fs net logged_versions missing_versions backlog_version].

Ltac decide_true H := rewrite (bool_decide_eq_true_2 _ H); cbn [negb].
Ltac decide_false H := rewrite (bool_decide_eq_false_2 _ H); cbn [negb].

Section Steps.

Context {Net : Type}.
Variable client : ClientNode Net.
Variable versions_to_keep : Z.

Local Abbreviation St := (Store Net).
Local Abbreviation body := (main_for_body client versions_to_keep).

Lemma for_each_app {A} (xs ys : list A) (f : A -> M Net unit) (s : St) :
  for_each (xs ++ ys) f s =
  match for_each xs f s with
  | (s', Normal _) => for_each ys f s'
  | (s', Raised e) => (s', Raised e)
  end.
Proof.
  revert s. induction xs as [|x xs IH]; intros s; cbn.
  - reflexivity.
  - unfold bind. destruct (f x s) as [s1 [[]|e]]; [apply IH | reflexivity].
Qed.

(** No exception leaves the body of the [for] loop: every call that can
    raise sits inside a [try] whose handlers catch all of [Exception]. *)
Lemma main_for_body_normal available_versions version (s : St) :
  snd (body available_versions version s) = Normal tt.
Proof.
  apply returns_unit. unfold main_for_body, delete_expired.
  repeat returns_step.
Qed.

Lemma for_each_body_normal available_versions versions (s : St) :
  snd (for_each versions (body available_versions) s) = Normal tt.
Proof.
  revert s. induction versions as [|v vs IH]; intros s; cbn; [reflexivity|].
  unfold bind.
  pose proof (main_for_body_normal available_versions v s) as Hv.
  destruct (body available_versions v s) as [s1 r]; cbn in Hv; subst r.
  apply IH.
Qed.

Lemma for_each_cons_body available_versions v rest (s : St) :
  for_each (v :: rest) (body available_versions) s =
  for_each rest (body available_versions) (fst (body available_versions v s)).
Proof.
  cbn. unfold bind.
  pose proof (main_for_body_normal available_versions v s) as Hv.
  destruct (body available_versions v s) as [s1 r]; cbn in *; subst r.
  reflexivity.
Qed.

(** C10.  When [download_version] returns [None], the body logs
    "Downloaded" and is done: no marker is touched (the files are the ones
    the client left), the expired version is not looked at (no unlink, no
    "Deleting expired version"), and the missing set stays as it was. *)
Theorem fetch_returning_none_changes_nothing
    available_versions version (s : St) n' files' :
  version ∈ available_versions ->
  model_safetensors version ∉ fs s ->
  download_version client version (model_safetensors version) (net s) (fs s)
    = (n', files', Normal None) ->
  main_for_body client versions_to_keep available_versions version s =
    (mkStore (logged_versions s) (missing_versions s) (backlog_version s)
       n' files'
       (trace s ++ [Log INFO (Downloading_version version);
                    Call_download_version version;
                    Log INFO (Downloaded_version version)]),
     Normal tt).
Proof.
  intros Hin Hfs Hdl. run_py.
  decide_true Hin. decide_false Hfs. unfold_store.
  rewrite Hdl. cbn. rewrite <- !app_assoc. reflexivity.
Qed.

(** C3.  When [download_version] raises [e] for a version of the target
    list, the handler logs the warning and adds the version to the missing
    set; the [for] loop then goes on with the versions after it, from that
    store, and ends without an exception. *)
Theorem fetch_exception_is_contained
    available_versions before version after (s0 : St) e n' files' :
  let s :=
    fst (for_each before
           (main_for_body client versions_to_keep available_versions) s0) in
  version ∈ available_versions ->
  model_safetensors version ∉ fs s ->
  download_version client version (model_safetensors version) (net s) (fs s)
    = (n', files', Raised e) ->
  let s' := after_failed_fetch version e n' files' s in
  main_for_body client versions_to_keep available_versions version s
    = (s', Normal tt) /\
  version ∈ missing_versions s' /\
  Log WARNING (Error_downloading_version version e) ∈ added_events s s' /\
  for_each (before ++ version :: after)
    (main_for_body client versions_to_keep available_versions) s0
    = for_each after
        (main_for_body client versions_to_keep available_versions) s' /\
  snd (for_each (before ++ version :: after)
         (main_for_body client versions_to_keep available_versions) s0)
    = Normal tt.
Proof.
  intros s Hin Hfs Hdl s'.
  assert (Hstep : body available_versions version s = (s', Normal tt)).
  { run_py. decide_true Hin. decide_false Hfs. unfold_store.
    rewrite Hdl. cbn. unfold_store. unfold s', after_failed_fetch.
    rewrite <- !app_assoc. reflexivity. }
  split; [exact Hstep|]. split; [|split; [|split]].
  - unfold s', after_failed_fetch; cbn. set_solver.
  - unfold added_events, s', after_failed_fetch; cbn.
    rewrite drop_app_length. set_solver.
  - rewrite for_each_app.
    pose proof (for_each_body_normal available_versions before s0) as Hb.
    fold s. destruct (for_each before (body available_versions) s0) as [sb rb].
    cbn in Hb; subst rb. cbn [fst] in s. subst s.
    rewrite for_each_cons_body, Hstep. reflexivity.
  - apply for_each_body_normal.
Qed.

End Steps.

(** ** One tick *)

Section Tick.

Context {Net : Type}.
Variable client : ClientNode Net.
Variable versions_to_keep : Z.
Variable window_size : Z.

Local Abbreviation St := (Store Net).
Local Abbreviation body := (main_for_body client versions_to_keep).
Local Abbreviation tick := (main_while_body client versions_to_keep window_size).

Lemma plan_targets_eq available_versions (s : St) :
  plan_targets window_size available_versions s =
  (advance_backlog s, Normal (target_set window_size available_versions s)).
Proof.
  unfold plan_targets, target_set, advance_backlog. run_py.
  destruct (backlog_version s =? -1); cbn; unfold_store; [|reflexivity].
  do 2 f_equal. set_solver.
Qed.

Lemma tick_poll_raises (s : St) n' e :
  list_available_versions client (net s) = (n', Raised e) ->
  tick s = (set_world n' (fs s) (emit Call_list_available_versions s), Raised e).
Proof.
  intros Hls. unfold main_while_body, bind at 1, client_list_available_versions.
  unfold_store. rewrite Hls. reflexivity.
Qed.

Lemma tick_nonempty (s : St) n' listed :
  list_available_versions client (net s) = (n', Normal listed) ->
  listed <> [] ->
  let available_versions := sorted listed in
  let targets := target_set window_size available_versions s in
  let s3 := fst (for_each (sorted (elements targets)) (body available_versions)
                   (after_planning n' s)) in
  tick s = (after_tick available_versions targets s3, Normal tt).
Proof.
  intros Hls Hne. cbv zeta.
  unfold main_while_body, bind at 1, client_list_available_versions.
  unfold_store. rewrite Hls. cbn [fst snd].
  destruct (sorted listed) as [|v0 vs] eqn:Hav.
  { apply sorted_nil_inv in Hav. contradiction. }
  cbv iota. rewrite <- Hav. clear Hav v0 vs.
  unfold bind at 1. rewrite plan_targets_eq.
  unfold bind at 1.
  pose proof (for_each_body_normal client versions_to_keep (sorted listed)
                (sorted (elements (target_set window_size (sorted listed) s)))
                (after_planning n' s)) as Hn.
  unfold after_planning in *. unfold_store. unfold target_set in *.
  cbn [backlog_version missing_versions] in *.
  destruct (for_each _ _ _) as [s3 r]. cbn in Hn. subst r. reflexivity.
Qed.

Lemma tick_empty (s : St) n' :
  list_available_versions client (net s) = (n', Normal []) ->
  tick s =
    (mkStore ({[-1]} ∪ logged_versions s) (missing_versions s)
       (backlog_version s) n' (fs s)
       (trace s ++ Call_list_available_versions ::
          (if bool_decide (-1 ∈ logged_versions s) then []
           else [Log WARNING No_versions_available]) ++ [Call_sleep]),
     Normal tt).
Proof.
  intros Hls.
  unfold main_while_body, bind at 1, client_list_available_versions.
  unfold_store. rewrite Hls. cbn [fst snd].
  change (sorted []) with (@nil Z). cbv iota. run_py. unfold_store.
  destruct (decide (-1 ∈ logged_versions s)) as [Hin|Hin].
  - decide_true Hin. unfold_store. rewrite <- !app_assoc. cbn.
    do 2 f_equal. set_solver.
  - decide_false Hin. unfold_store. rewrite <- !app_assoc. reflexivity.
Qed.

(** A relation that every tick keeps is kept by the loop, however long it
    runs and however it ends. *)
Lemma main_loop_relates (R : St -> St -> Prop) :
  (forall s, R s s) ->
  (forall s1 s2 s3, R s1 s2 -> R s2 s3 -> R s1 s3) ->
  relates R tick ->
  forall ticks, relates R (main_loop client versions_to_keep window_size ticks).
Proof.
  intros Hrefl Htrans Htick ticks. induction ticks as [|n IH]; cbn.
  - apply relates_ret, Hrefl.
  - apply relates_bind; [exact Htrans | exact Htick | intros _; exact IH].
Qed.

End Tick.

(** ** Log records are not repeated *)

Lemma guarded_logs_snoc_other key tr e :
  logged_key e <> Some key -> guarded_logs key (tr ++ [e]) = guarded_logs key tr.
Proof.
  intros He. unfold guarded_logs. rewrite filter_app, filter_cons, filter_nil.
  rewrite decide_False by exact He. apply app_nil_r.
Qed.

Lemma guarded_logs_snoc_same key tr e :
  logged_key e = Some key ->
  guarded_logs key (tr ++ [e]) = guarded_logs key tr ++ [e].
Proof.
  intros He. unfold guarded_logs. rewrite filter_app, filter_cons, filter_nil.
  rewrite decide_True by exact He. reflexivity.
Qed.

(** Runs the body of the [for] loop on a symbolic store, one case for each
    way through it. *)
Ltac exec_step :=
  match goal with
  | |- context [bool_decide ?P] =>
      let H := fresh "Hdec" in
      destruct (decide P) as [H|H]; [decide_true H | decide_false H]
  | |- context [download_version ?c ?v ?d ?n ?f] =>
      let H := fresh "Hdl" in
      destruct (download_version c v d n f) as [[? ?] [[?|]|?]] eqn:H
  | |- context [list_available_versions ?c ?n] =>
      let H := fresh "Hls" in
      destruct (list_available_versions c n) as [? [?|?]] eqn:H
  | |- context [?k =? -1] =>
      let H := fresh "Hk" in
      destruct (Z.eqb_spec k (-1)) as [H|H]; cbn [negb]
  | |- context [match ?e with FileNotFoundError => _ | OtherException _ => _ end] =>
      destruct e
  end.

Ltac exec := run_py; unfold_store; repeat (exec_step; cbn [fst snd]; unfold_store).

Section Logged_once.

Context {Net : Type}.
Variable client : ClientNode Net.
Variable versions_to_keep : Z.
Variable window_size : Z.

Local Abbreviation St := (Store Net).

Ltac logged_once_leaf :=
  unfold keeps_logged_once, logged_once; cbn [trace logged_versions];
  let H := fresh "H" in
  let key := fresh "key" in
  let Hnil := fresh "Hnil" in
  let Hlen := fresh "Hlen" in
  intros H key; specialize (H key); destruct H as [Hnil Hlen];
  repeat first
    [ rewrite guarded_logs_snoc_other by (cbn; discriminate)
    | match goal with
      | |- context [guarded_logs key (_ ++ [Log _ No_versions_available])] =>
          destruct (decide (key = -1)) as [->|];
          [ rewrite guarded_logs_snoc_same by reflexivity;
            repeat rewrite guarded_logs_snoc_other by (cbn; discriminate);
            rewrite Hnil by assumption
          | rewrite guarded_logs_snoc_other by (cbn; congruence) ]
      | |- context [guarded_logs key (_ ++ [Log _ (_ ?v)])] =>
          destruct (decide (key = v)) as [->|];
          [ rewrite guarded_logs_snoc_same by reflexivity;
            repeat rewrite guarded_logs_snoc_other by (cbn; discriminate);
            rewrite Hnil by assumption
          | rewrite guarded_logs_snoc_other by (cbn; congruence) ]
      end ];
  (split;
   [ let Hk := fresh "Hk" in
     intros Hk;
     first [ solve [exfalso; set_solver] | apply Hnil; set_solver ]
   | cbn; lia ]).

Lemma main_for_body_logged_once available_versions version :
  relates keeps_logged_once
    (main_for_body client versions_to_keep available_versions version).
Proof. intros s. exec; logged_once_leaf. Qed.

Lemma keeps_logged_once_trans (s1 s2 s3 : St) :
  keeps_logged_once s1 s2 -> keeps_logged_once s2 s3 -> keeps_logged_once s1 s3.
Proof. unfold keeps_logged_once. auto. Qed.

Lemma tick_logged_once :
  relates keeps_logged_once
    (main_while_body client versions_to_keep window_size).
Proof.
  intros s.
  destruct (list_available_versions client (net s)) as [n' [listed|e]] eqn:Hls.
  - destruct listed as [|x listed].
    + rewrite (tick_empty _ _ _ _ _ Hls). cbn [fst].
      case_bool_decide; cbn [app].
      * rewrite (snoc2 (trace s)). logged_once_leaf.
      * rewrite (snoc3 (trace s)). logged_once_leaf.
    + rewrite (tick_nonempty _ _ _ _ _ _ Hls) by discriminate. cbn [fst].
      set (available := sorted (x :: listed)).
      set (targets := target_set window_size available s).
      set (s1 := after_planning n' s).
      set (s3 := fst (for_each _ _ s1)).
      assert (keeps_logged_once s s1) as K1.
      { unfold s1, after_planning, advance_backlog. unfold_store.
        destruct (backlog_version s =? -1); unfold_store; logged_once_leaf. }
      assert (keeps_logged_once s1 s3) as K2.
      { apply (relates_for_each keeps_logged_once).
        - unfold keeps_logged_once; auto.
        - exact keeps_logged_once_trans.
        - intros v _. apply main_for_body_logged_once. }
      assert (keeps_logged_once s3 (after_tick available targets s3)) as K3.
      { unfold after_tick. generalize s3. intros s'. unfold_store.
        logged_once_leaf. }
      unfold keeps_logged_once in *. auto.
  - rewrite (tick_poll_raises _ _ _ _ _ _ Hls). cbn [fst]. unfold_store.
    logged_once_leaf.
Qed.

Lemma main_logged_once backlog net0 fs0 ticks :
  logged_once
    (fst (main client versions_to_keep window_size backlog net0 fs0 ticks)).
Proof.
  unfold main.
  apply (main_loop_relates client versions_to_keep window_size
           keeps_logged_once).
  - unfold keeps_logged_once; auto.
  - exact keeps_logged_once_trans.
  - exact tick_logged_once.
  - intros key. unfold initial, guarded_logs. cbn.
    split; [reflexivity | lia].
Qed.

Lemma count_le_guarded_logs (p : event -> bool) key tr :
  (forall e, p e = true -> logged_key e = Some key) ->
  (count p tr <= length (guarded_logs key tr))%nat.
Proof.
  intros Hp. unfold count, guarded_logs.
  induction tr as [|e tr IH]; [reflexivity|].
  rewrite !filter_cons.
  destruct (decide (p e = true)) as [He|He].
  - rewrite decide_True by (apply Hp, He). cbn. lia.
  - destruct (decide (logged_key e = Some key)); cbn; lia.
Qed.

(** The three guarded records, each at most once in a whole run. *)
Lemma main_logs_once (p : event -> bool) key backlog net0 fs0 ticks :
  (forall e, p e = true -> logged_key e = Some key) ->
  (count p (trace (fst (main client versions_to_keep window_size
                          backlog net0 fs0 ticks))) <= 1)%nat.
Proof.
  intros Hp.
  pose proof (main_logged_once backlog net0 fs0 ticks key) as [_ Hlen].
  pose proof (count_le_guarded_logs p key
                (trace (fst (main client versions_to_keep window_size
                               backlog net0 fs0 ticks))) Hp).
  lia.
Qed.

Lemma is_not_found_key v e : is_not_found v e = true -> logged_key e = Some v.
Proof.
  destruct e as [lvl []| | | | |]; cbn; try discriminate.
  intros H. apply bool_decide_eq_true_1 in H. congruence.
Qed.

Lemma is_already_exists_key v e :
  is_already_exists v e = true -> logged_key e = Some v.
Proof.
  destruct e as [lvl []| | | | |]; cbn; try discriminate.
  intros H. apply bool_decide_eq_true_1 in H. congruence.
Qed.

Lemma is_no_versions_key e : is_no_versions e = true -> logged_key e = Some (-1).
Proof. destruct e as [lvl []| | | | |]; cbn; try discriminate; reflexivity. Qed.

End Logged_once.

(** ** The branches of the [for] loop *)

Section Branches.

Context {Net : Type}.
Variable client : ClientNode Net.
Variable versions_to_keep : Z.

Local Abbreviation St := (Store Net).
Local Abbreviation body := (main_for_body client versions_to_keep).

Ltac store_eq :=
  rewrite ?bool_decide_eq_true_2, ?bool_decide_eq_false_2 by assumption;
  f_equal; f_equal;
  try reflexivity; try set_solver;
  rewrite <- ?app_assoc, ?app_nil_r; reflexivity.

(** C8.  A target version that is not in the catalog is added to the
    missing set and nothing else happens for it: no call to the client, no
    call on a file, the files and the remote side as they were.  "not found
    on server" is logged when the version is not in [logged_versions] yet,
    and so at most once for a version in a whole run of the loop. *)
Theorem version_not_on_server_goes_missing
    available_versions version (s : St) :
  version ∉ available_versions ->
  main_for_body client versions_to_keep available_versions version s =
    (mkStore ({[version]} ∪ logged_versions s)
       ({[version]} ∪ missing_versions s)
       (backlog_version s) (net s) (fs s)
       (trace s ++
          if bool_decide (version ∈ logged_versions s) then []
          else [Log WARNING (Version_not_found_on_server version)]),
     Normal tt) /\
  forall window_size backlog net0 fs0 ticks,
    (count (is_not_found version)
       (trace (fst (main client versions_to_keep window_size
                      backlog net0 fs0 ticks))) <= 1)%nat.
Proof.
  intros Hout. split.
  - run_py. decide_false Hout.
    destruct (decide (version ∈ logged_versions s)) as [Hl|Hl];
      [decide_true Hl | decide_false Hl]; unfold_store; store_eq.
  - intros. apply (main_logs_once _ _ _ _ version). apply is_not_found_key.
Qed.

(** C2.  A target version of the catalog whose marker is on disk (and, by
    the data model, its payload with it) is skipped: no call to the client,
    no call on a file, the files as they were; the version leaves the
    missing set.  "already exists locally" is logged when the version is not
    in [logged_versions] yet, and so at most once for a version in a whole
    run of the loop. *)
Theorem stable_version_is_skipped
    available_versions version (s : St) :
  marker_implies_payload (fs s) ->
  version ∈ available_versions ->
  stable version ∈ fs s ->
  main_for_body client versions_to_keep available_versions version s =
    (mkStore ({[version]} ∪ logged_versions s)
       (missing_versions s ∖ {[version]})
       (backlog_version s) (net s) (fs s)
       (trace s ++
          if bool_decide (version ∈ logged_versions s) then []
          else [Log INFO (Version_already_exists_locally version)]),
     Normal tt) /\
  forall window_size backlog net0 fs0 ticks,
    (count (is_already_exists version)
       (trace (fst (main client versions_to_keep window_size
                      backlog net0 fs0 ticks))) <= 1)%nat.
Proof.
  intros Hfs Hin Hst. apply Hfs in Hst. split.
  - destruct s as [lg ms bl nt fl tr]; cbn in Hst |- *.
    run_py. unfold_store. decide_true Hin. decide_true Hst.
    destruct (decide (version ∈ lg)) as [Hl|Hl];
      [decide_true Hl | decide_false Hl]; unfold_store;
      (destruct (decide (version ∈ ms)) as [Hm|Hm];
       [decide_true Hm | decide_false Hm]); unfold_store; store_eq.
  - intros. apply (main_logs_once _ _ _ _ version). apply is_already_exists_key.
Qed.

(** C5.  A version was just fetched and a horizon is configured, but the
    payload of the expired version is not on disk (its number may well be
    negative).  The first [unlink] raises [FileNotFoundError], the handler
    logs "Expired version not found", no file is removed, and the body ends
    without an exception: the [for] loop goes on with the next versions. *)
Theorem absent_expired_version_is_a_logged_no_op
    available_versions version after (s : St) n' files' p :
  versions_to_keep <> -1 ->
  version ∈ available_versions ->
  model_safetensors version ∉ fs s ->
  download_version client version (model_safetensors version) (net s) (fs s)
    = (n', files', Normal (Some p)) ->
  step_dir version ∈ files' ->
  model_safetensors (version - versions_to_keep) ∉ files' ->
  let expired := version - versions_to_keep in
  let s' :=
    mkStore (logged_versions s) (missing_versions s ∖ {[version]})
      (backlog_version s) n' ({[stable version]} ∪ files')
      (trace s ++ [Log INFO (Downloading_version version);
                   Call_download_version version;
                   Log INFO (Downloaded_version version);
                   Call_touch (stable version);
                   Log INFO (Deleting_expired_version expired);
                   Call_unlink (model_safetensors expired);
                   Log WARNING (Expired_version_not_found expired)]) in
  main_for_body client versions_to_keep available_versions version s
    = (s', Normal tt) /\
  for_each (version :: after)
    (main_for_body client versions_to_keep available_versions) s
    = for_each after
        (main_for_body client versions_to_keep available_versions) s' /\
  snd (for_each (version :: after)
         (main_for_body client versions_to_keep available_versions) s)
    = Normal tt.
Proof.
  intros Hk Hin Hfs Hdl Hdir Hexp expired s'.
  assert (Hstep : body available_versions version s = (s', Normal tt)).
  { run_py. decide_true Hin. decide_false Hfs. unfold_store.
    rewrite Hdl. cbn [fst snd]. unfold_store. cbn [parent].
    decide_true Hdir. unfold_store.
    destruct (Z.eqb_spec versions_to_keep (-1)) as [|_]; [contradiction|].
    cbn [negb]. unfold_store.
    assert (model_safetensors (version - versions_to_keep)
            ∉ ({[stable version]} ∪ files' : gset path)) as Hexp'
      by set_solver.
    decide_false Hexp'. unfold_store.
    unfold s', expired.
    destruct (decide (version ∈ missing_versions s)) as [Hm|Hm];
      [decide_true Hm | decide_false Hm]; unfold_store; store_eq. }
  split; [exact Hstep|]. split.
  - rewrite for_each_cons_body, Hstep. reflexivity.
  - apply for_each_body_normal.
Qed.

(** C4 (as the code has it).  The two [unlink] calls sit in one [try]: the
    payload of the expired version is always tried, the marker is tried
    exactly when the payload was there to remove.  With the payload absent
    the handler logs "Expired version not found" and the files, the marker
    among them, stay as they were.  No exception leaves the block. *)
Theorem marker_unlink_follows_payload_unlink (version : Z) (s : St) :
  let expired := version - versions_to_keep in
  let s' := fst (delete_expired versions_to_keep version s) in
  snd (delete_expired versions_to_keep version s) = Normal tt /\
  Call_unlink (model_safetensors expired) ∈ added_events s s' /\
  (Call_unlink (stable expired) ∈ added_events s s'
     <-> model_safetensors expired ∈ fs s) /\
  (model_safetensors expired ∉ fs s ->
     fs s' = fs s /\
     Log WARNING (Expired_version_not_found expired) ∈ added_events s s').
Proof.
  cbv zeta. unfold added_events. run_py. unfold_store.
  destruct (decide (model_safetensors (version - versions_to_keep) ∈ fs s))
    as [Hp|Hp]; [decide_true Hp | decide_false Hp]; unfold_store.
  - destruct (decide (stable (version - versions_to_keep)
                      ∈ fs s ∖ {[model_safetensors (version - versions_to_keep)]}))
      as [Hm|Hm]; [decide_true Hm | decide_false Hm]; unfold_store;
      cbn [fst snd trace fs];
      rewrite <- ?app_assoc, drop_app_length; cbn [app];
      (split; [reflexivity|]); (split; [set_solver|]);
      (split; [split; [auto | intros _; set_solver] | contradiction]).
  - cbn [fst snd trace fs].
    rewrite <- ?app_assoc, drop_app_length; cbn [app].
    split; [reflexivity|]. split; [set_solver|]. split.
    + split; [|contradiction]. intros Hin.
      apply elem_of_cons in Hin as [Hin|Hin]; [discriminate|].
      apply elem_of_cons in Hin as [Hin|Hin]; [discriminate|].
      apply elem_of_cons in Hin as [Hin|Hin]; [discriminate|].
      inversion Hin.
    + intros _. split; [reflexivity | set_solver].
Qed.

End Branches.

(** ** The loop over ticks *)

Lemma planned_app tr1 tr2 : planned (tr1 ++ tr2) = planned tr1 ++ planned tr2.
Proof.
  induction tr1 as [|e tr1 IH]; [reflexivity|].
  destruct e as [lvl []| | | | |]; cbn; rewrite IH; reflexivity.
Qed.

Section Ticks.

Context {Net : Type}.
Variable client : ClientNode Net.
Variable versions_to_keep : Z.
Variable window_size : Z.

Local Abbreviation St := (Store Net).
Local Abbreviation body := (main_for_body client versions_to_keep).
Local Abbreviation tick := (main_while_body client versions_to_keep window_size).

(** A relation kept by each part of a tick is kept by the tick. *)
Lemma tick_relates (R : St -> St -> Prop) :
  (forall s, R s s) ->
  (forall s1 s2 s3, R s1 s2 -> R s2 s3 -> R s1 s3) ->
  (forall s n', R s (set_world n' (fs s) (emit Call_list_available_versions s))) ->
  (forall s, R s (advance_backlog s)) ->
  (forall available_versions version,
      relates R (body available_versions version)) ->
  (forall s available_versions targets,
      R s (after_tick available_versions targets s)) ->
  (forall s n', list_available_versions client (net s) = (n', Normal []) ->
                R s (fst (tick s))) ->
  relates R tick.
Proof.
  intros Hrefl Htrans Hpoll Hadv Hbody Hend Hempty s.
  destruct (list_available_versions client (net s)) as [n' [listed|e]] eqn:Hls.
  - destruct listed as [|x listed]; [eapply Hempty, Hls|].
    rewrite (tick_nonempty _ _ _ _ _ _ Hls) by discriminate. cbn [fst].
    eapply Htrans; [|apply Hend].
    eapply Htrans; [|apply (relates_for_each R Hrefl Htrans); intros; apply Hbody].
    unfold after_planning. eapply Htrans; [apply Hpoll | apply Hadv].
  - rewrite (tick_poll_raises _ _ _ _ _ _ Hls). apply Hpoll.
Qed.

Lemma main_for_body_same_plan available_versions version :
  relates same_plan (body available_versions version).
Proof.
  intros s. unfold same_plan.
  exec; cbn [trace backlog_version];
    (split; [reflexivity | rewrite ?planned_app, ?app_nil_r; reflexivity]).
Qed.

Lemma for_each_same_plan available_versions versions :
  relates same_plan (for_each versions (body available_versions)).
Proof.
  apply (relates_for_each same_plan).
  - intros s. split; reflexivity.
  - intros s1 s2 s3 [H1 H2] [H3 H4]. split; congruence.
  - intros v _. apply main_for_body_same_plan.
Qed.

Lemma tick_logged_grows : relates logged_grows tick.
Proof.
  apply tick_relates; unfold logged_grows.
  - set_solver.
  - set_solver.
  - intros s0 n'. unfold_store. set_solver.
  - intros s0. unfold advance_backlog. case_match; unfold_store; set_solver.
  - intros av v s0. exec; set_solver.
  - intros; unfold after_tick; unfold_store; set_solver.
  - intros s0 n' Hls. rewrite (tick_empty _ _ _ _ _ Hls). cbn. set_solver.
Qed.

Lemma main_loop_logged_grows ticks :
  relates logged_grows (main_loop client versions_to_keep window_size ticks).
Proof.
  apply main_loop_relates; [| |exact tick_logged_grows];
    unfold logged_grows; set_solver.
Qed.

(** C6.  A tick whose poll answers with an empty catalog plans nothing: it
    makes no call to fetch or to remove, leaves the files, the missing set
    and the backlog cursor as they were, and sleeps.  It logs "No versions
    available" when [-1] is not in [logged_versions] yet and puts it there,
    where it stays: no later tick logs it again, and a whole run of the
    loop holds the record at most once. *)
Theorem empty_catalog_tick_is_idle (s : St) n' :
  list_available_versions client (net s) = (n', Normal []) ->
  main_while_body client versions_to_keep window_size s =
    (mkStore ({[-1]} ∪ logged_versions s) (missing_versions s)
       (backlog_version s) n' (fs s)
       (trace s ++ Call_list_available_versions ::
          (if bool_decide (-1 ∈ logged_versions s) then []
           else [Log WARNING No_versions_available]) ++ [Call_sleep]),
     Normal tt) /\
  (forall ticks,
     -1 ∈ logged_versions
            (fst (main_loop client versions_to_keep window_size ticks
                    (fst (main_while_body client versions_to_keep
                            window_size s))))) /\
  (forall backlog net0 fs0 ticks,
     (count is_no_versions
        (trace (fst (main client versions_to_keep window_size
                       backlog net0 fs0 ticks))) <= 1)%nat).
Proof.
  intros Hls. split; [apply tick_empty, Hls|]. split.
  - intros ticks. apply (main_loop_logged_grows ticks (fst (tick s))).
    rewrite (tick_empty _ _ _ _ _ Hls). cbn. set_solver.
  - intros. apply (main_logs_once _ _ _ _ (-1)). apply is_no_versions_key.
Qed.

Lemma tick_cursor_swept b (s : St) :
  0 <= b -> cursor_swept b s -> cursor_swept b (fst (tick s)).
Proof.
  intros Hb [Hcur Hold].
  destruct (list_available_versions client (net s)) as [n' [listed|e]] eqn:Hls.
  - destruct listed as [|x listed].
    + rewrite (tick_empty _ _ _ _ _ Hls). unfold cursor_swept. cbn.
      rewrite planned_app.
      replace (planned (Call_list_available_versions :: _)) with (@nil (list Z))
        by (case_bool_decide; reflexivity).
      rewrite app_nil_r. split; assumption.
    + rewrite (tick_nonempty _ _ _ _ _ _ Hls) by discriminate. cbn [fst].
      set (available := sorted (x :: listed)).
      set (targets := target_set window_size available s).
      set (s1 := after_planning n' s).
      destruct (for_each_same_plan available (sorted (elements targets)) s1)
        as [Hb3 Hp3].
      set (s3 := fst (for_each _ _ s1)) in *.
      assert ((backlog_version s =? -1) = false) as Hne by lia.
      assert (backlog_version s1 = backlog_version s + 1
              /\ planned (trace s1) = planned (trace s)) as [Hb1 Hp1].
      { unfold s1, after_planning, advance_backlog. unfold_store.
        rewrite Hne. unfold_store.
        split; [reflexivity | rewrite planned_app; apply app_nil_r]. }
      unfold cursor_swept, after_tick. unfold_store.
      rewrite !planned_app. cbn [planned]. rewrite app_nil_r.
      rewrite Hb3, Hp3, Hb1, Hp1. split.
      * rewrite length_app. cbn. lia.
      * intros k tg Hk.
        destruct (decide (k < length (planned (trace s)))%nat) as [Hlt|Hge].
        -- rewrite lookup_app_l in Hk by exact Hlt. eauto.
        -- rewrite lookup_app_r in Hk by lia.
           destruct (k - length (planned (trace s)))%nat as [|j] eqn:Hj;
             [|discriminate].
           injection Hk as <-.
           apply elem_of_sorted, elem_of_elements.
           unfold targets, target_set. rewrite Hne.
           replace (b + Z.of_nat k) with (backlog_version s) by lia.
           set_solver.
  - rewrite (tick_poll_raises _ _ _ _ _ _ Hls). unfold cursor_swept.
    cbn [fst]. unfold_store. rewrite planned_app, app_nil_r.
    split; assumption.
Qed.

(** A tick whose poll answers with a catalog that is not empty, in backlog
    mode: it plans, with the cursor among the targets, moves the cursor by
    one and ends with the record of what it planned, whatever the client
    does in between. *)
Lemma tick_nonempty_plans (s : St) n' listed :
  backlog_version s <> -1 ->
  list_available_versions client (net s) = (n', Normal listed) ->
  listed <> [] ->
  let targets := target_set window_size (sorted listed) s in
  snd (tick s) = Normal tt /\
  backlog_version (fst (tick s)) = backlog_version s + 1 /\
  backlog_version s ∈ targets /\
  planned (trace (fst (tick s)))
    = planned (trace s) ++ [sorted (elements targets)].
Proof.
  intros Hmode Hls Hne targets.
  rewrite (tick_nonempty _ _ _ _ _ _ Hls Hne). cbn [fst snd].
  fold targets.
  set (s1 := after_planning n' s).
  destruct (for_each_same_plan (sorted listed) (sorted (elements targets)) s1)
    as [Hb3 Hp3].
  set (s3 := fst (for_each _ _ s1)) in *.
  assert ((backlog_version s =? -1) = false) as Hne1 by lia.
  assert (backlog_version s1 = backlog_version s + 1
          /\ planned (trace s1) = planned (trace s)) as [Hb1 Hp1].
  { unfold s1, after_planning, advance_backlog. unfold_store.
    rewrite Hne1. unfold_store.
    split; [reflexivity | rewrite planned_app; apply app_nil_r]. }
  split; [reflexivity|]. unfold after_tick. unfold_store.
  split; [congruence|]. split.
  - unfold targets, target_set. rewrite Hne1. set_solver.
  - rewrite !planned_app. cbn [planned]. rewrite app_nil_r.
    rewrite Hp3, Hp1. reflexivity.
Qed.

Lemma tick_empty_plans_nothing (s : St) n' :
  list_available_versions client (net s) = (n', Normal []) ->
  backlog_version (fst (tick s)) = backlog_version s /\
  planned (trace (fst (tick s))) = planned (trace s).
Proof.
  intros Hls. rewrite (tick_empty _ _ _ _ _ Hls). cbn [fst].
  split; [reflexivity|]. cbn [trace]. rewrite planned_app.
  replace (planned (Call_list_available_versions :: _)) with (@nil (list Z))
    by (case_bool_decide; reflexivity).
  apply app_nil_r.
Qed.

(** The cursor against what the server answered: over a run it has moved
    by the number of catalogs that were not empty, and the run planned once
    for each of them, with the cursor of that time among the targets. *)
Lemma main_loop_counts_catalogs ticks (s : St) :
  0 <= backlog_version s ->
  let s' := fst (main_loop client versions_to_keep window_size ticks s) in
  let busy :=
    filter (fun catalog : list Z => catalog <> [])
      (polled client versions_to_keep window_size s ticks) in
  backlog_version s' = backlog_version s + Z.of_nat (length busy) /\
  exists plans,
    planned (trace s') = planned (trace s) ++ plans /\
    length plans = length busy /\
    forall (k : nat) targets,
      plans !! k = Some targets -> backlog_version s + Z.of_nat k ∈ targets.
Proof.
  revert s. induction ticks as [|n IH]; intros s Hb; cbv zeta.
  - cbn. split; [lia|]. exists []. rewrite app_nil_r.
    split; [reflexivity|]. split; [reflexivity|].
    intros k t Hk. rewrite lookup_nil in Hk. discriminate.
  - cbn [main_loop polled]. unfold bind.
    destruct (list_available_versions client (net s))
      as [n' [listed|e]] eqn:Hls.
    + destruct listed as [|x listed].
      * destruct (tick_empty_plans_nothing s n' Hls) as [Hb1 Hp1].
        pose proof (tick_empty client versions_to_keep window_size s n' Hls)
          as Htick.
        destruct (tick s) as [s1 r] eqn:Hrun. cbn [fst] in *.
        injection Htick as _ ->.
        destruct (IH s1 ltac:(lia)) as (Hcur & plans & Hpl & Hlen & Hin).
        rewrite filter_cons, decide_False by (intros H; apply H; reflexivity).
        rewrite Hcur, Hb1. split; [reflexivity|].
        exists plans. rewrite Hpl, Hp1. split; [reflexivity|].
        split; [exact Hlen|]. intros k t Hk. rewrite <- Hb1. eauto.
      * destruct (tick_nonempty_plans s n' (x :: listed) ltac:(lia) Hls
                    ltac:(discriminate)) as (Hr & Hb1 & Htg & Hp1).
        destruct (tick s) as [s1 r] eqn:Hrun. cbn [fst snd] in *. subst r.
        destruct (IH s1 ltac:(lia)) as (Hcur & plans & Hpl & Hlen & Hin).
        rewrite filter_cons, decide_True by discriminate.
        rewrite Hcur, Hb1. cbn [length]. split; [lia|].
        eexists (_ :: plans). rewrite Hpl, Hp1, <- app_assoc.
        split; [reflexivity|]. split; [cbn; lia|].
        intros [|k] t Hk; cbn in Hk.
        -- injection Hk as <-. rewrite Z.add_0_r.
           apply elem_of_sorted, elem_of_elements. exact Htg.
        -- specialize (Hin _ _ Hk). rewrite Hb1 in Hin.
           replace (backlog_version s + Z.of_nat (S k))
             with (backlog_version s + 1 + Z.of_nat k) by lia.
           exact Hin.
    + rewrite (tick_poll_raises _ _ _ _ _ _ Hls). cbn [fst].
      unfold_store. cbn. split; [lia|]. exists [].
      rewrite planned_app, !app_nil_r.
      split; [reflexivity|]. split; [reflexivity|].
      intros k t Hk. rewrite lookup_nil in Hk. discriminate.
Qed.

(** C7.  Backlog mode starts at a version [b] (versions are not negative).
    Whatever the client answers and however the fetches end, after any
    number of ticks the cursor is [b] plus the number of ticks that planned
    (those with a catalog that was not empty), and the target list of the
    [k]-th such tick, counted from one, holds [b + k - 1].  A tick with an
    empty catalog leaves the cursor where it was.

    The ticks that planned are the ticks whose poll answered with a catalog
    that was not empty, counted on the answers of the server ([polled]):
    the run has one planning record for each of them, and the cursor has
    moved by their number.  Tick by tick: in backlog mode a tick with such
    a catalog ends without an exception, has the cursor among its targets
    and leaves it one further. *)
Theorem backlog_cursor_sweeps_one_per_tick b net0 fs0 ticks :
  0 <= b ->
  let s := fst (main client versions_to_keep window_size b net0 fs0 ticks) in
  let busy :=
    filter (fun catalog : list Z => catalog <> [])
      (polled client versions_to_keep window_size (initial b net0 fs0)
         ticks) in
  backlog_version s = b + Z.of_nat (length (planned (trace s))) /\
  (forall (k : nat) targets,
     planned (trace s) !! k = Some targets ->
     b + Z.of_nat (S k) - 1 ∈ targets) /\
  (forall (s0 : St) n',
     list_available_versions client (net s0) = (n', Normal []) ->
     backlog_version
       (fst (main_while_body client versions_to_keep window_size s0))
     = backlog_version s0) /\
  length (planned (trace s)) = length busy /\
  backlog_version s = b + Z.of_nat (length busy) /\
  (forall (s0 : St) n' listed,
     backlog_version s0 <> -1 ->
     list_available_versions client (net s0) = (n', Normal listed) ->
     listed <> [] ->
     snd (main_while_body client versions_to_keep window_size s0)
       = Normal tt /\
     backlog_version
       (fst (main_while_body client versions_to_keep window_size s0))
     = backlog_version s0 + 1 /\
     backlog_version s0 ∈ target_set window_size (sorted listed) s0 /\
     planned
       (trace (fst (main_while_body client versions_to_keep window_size s0)))
     = planned (trace s0)
       ++ [sorted (elements (target_set window_size (sorted listed) s0))]).
Proof.
  intros Hb s busy.
  destruct (main_loop_counts_catalogs ticks (initial b net0 fs0) Hb)
    as (Hcur & plans & Hpl & Hlen & Hin).
  cbn [initial backlog_version trace planned app] in Hcur, Hpl, Hin.
  fold (main client versions_to_keep window_size b net0 fs0 ticks)
    in Hcur, Hpl.
  fold s in Hcur, Hpl. fold busy in Hcur, Hlen.
  split; [rewrite Hpl, Hlen; exact Hcur|]. split.
  - intros k tg Hk. rewrite Hpl in Hk.
    replace (b + Z.of_nat (S k) - 1) with (b + Z.of_nat k) by lia. eauto.
  - split.
    + intros s0 n' Hls. rewrite (tick_empty _ _ _ _ _ Hls). reflexivity.
    + split; [rewrite Hpl; exact Hlen|]. split; [exact Hcur|].
      intros s0 n' listed Hmode Hls Hne.
      apply (tick_nonempty_plans s0 n' listed Hmode Hls Hne).
Qed.

End Ticks.

(** ** A missing version that appears in the catalog *)

Lemma sorted_elements_NoDup (X : gset Z) : NoDup (sorted (elements X)).
Proof.
  unfold sorted. rewrite merge_sort_Permutation. apply NoDup_elements.
Qed.

Lemma elem_of_sorted_elements x (X : gset Z) :
  x ∈ sorted (elements X) <-> x ∈ X.
Proof. rewrite elem_of_sorted. apply elem_of_elements. Qed.

Lemma NoDup_split {A} (x : A) (l : list A) :
  NoDup l -> x ∈ l ->
  exists l1 l2, l = l1 ++ x :: l2 /\ (x ∉ l1) /\ (x ∉ l2).
Proof.
  intros Hnd Hin. apply list_elem_of_split in Hin as (l1 & l2 & ->).
  exists l1, l2. split; [reflexivity|].
  apply NoDup_app in Hnd as (_ & Hl1 & Hl2).
  apply NoDup_cons in Hl2 as [Hx _]. split; [|exact Hx].
  intros Hin1. apply (Hl1 x Hin1). left.
Qed.

Section Convergence.

Context {Net : Type}.
Variable client : ClientNode Net.
Variable versions_to_keep : Z.
Variable window_size : Z.

Local Abbreviation St := (Store Net).
Local Abbreviation body := (main_for_body client versions_to_keep).
Local Abbreviation tick := (main_while_body client versions_to_keep window_size).

Lemma fst_for_each_app available_versions xs ys (s : St) :
  fst (for_each (xs ++ ys) (body available_versions) s) =
  fst (for_each ys (body available_versions)
         (fst (for_each xs (body available_versions) s))).
Proof.
  rewrite for_each_app.
  pose proof (for_each_body_normal client versions_to_keep
                available_versions xs s) as Hn.
  destruct (for_each xs _ s) as [s1 r]. cbn in Hn. subst r. reflexivity.
Qed.

Lemma main_for_body_same_missing_at available_versions v u :
  u <> v -> relates (same_missing_at v) (body available_versions u).
Proof. intros Hne s. unfold same_missing_at. exec; set_solver. Qed.

Lemma for_each_same_missing_at available_versions v versions :
  v ∉ versions ->
  relates (same_missing_at v) (for_each versions (body available_versions)).
Proof.
  intros Hv. apply (relates_for_each (same_missing_at v)).
  - intros s. unfold same_missing_at. tauto.
  - intros s1 s2 s3. unfold same_missing_at. tauto.
  - intros u Hu. apply main_for_body_same_missing_at. intros ->. contradiction.
Qed.

Lemma main_for_body_absent_goes_missing available_versions v (s : St) :
  v ∉ available_versions ->
  v ∈ missing_versions (fst (body available_versions v s)).
Proof. intros Hv. exec; try contradiction; set_solver. Qed.

Lemma main_for_body_present_is_skipped available_versions v (s : St) :
  v ∈ available_versions ->
  model_safetensors v ∈ fs s ->
  (Call_download_version v ∉ added_events s (fst (body available_versions v s)))
  /\ (v ∉ missing_versions (fst (body available_versions v s))).
Proof.
  intros Hin Hp. unfold added_events. run_py. decide_true Hin. decide_true Hp.
  unfold_store.
  repeat (exec_step; cbn [fst snd]; unfold_store);
    cbn [trace missing_versions];
    rewrite <- ?app_assoc, ?drop_app_length, ?drop_all; cbn [app];
    (split; [|set_solver]);
    intros Hd; repeat (apply elem_of_cons in Hd as [Hd|Hd]; [discriminate|]);
    inversion Hd.
Qed.

Lemma main_for_body_absent_is_fetched available_versions v (s : St) :
  v ∈ available_versions ->
  model_safetensors v ∉ fs s ->
  Call_download_version v ∈ added_events s (fst (body available_versions v s)).
Proof.
  intros Hin Hp. unfold added_events. run_py. decide_true Hin. decide_false Hp.
  unfold_store.
  repeat (exec_step; cbn [fst snd]; unfold_store);
    cbn [trace];
    rewrite <- ?app_assoc, ?drop_app_length; cbn [app];
    set_solver.
Qed.

Lemma main_for_body_fetched_leaves_missing
    available_versions v (s : St) n' files' p :
  v ∈ available_versions ->
  model_safetensors v ∉ fs s ->
  download_version client v (model_safetensors v) (net s) (fs s)
    = (n', files', Normal (Some p)) ->
  step_dir v ∈ files' ->
  v ∉ missing_versions (fst (body available_versions v s)).
Proof.
  intros Hin Hp Hdl Hdir. run_py. decide_true Hin. decide_false Hp.
  unfold_store. rewrite Hdl. cbn [fst snd]. unfold_store. cbn [parent].
  decide_true Hdir. unfold_store.
  repeat (exec_step; cbn [fst snd]; unfold_store);
    cbn [missing_versions]; set_solver.
Qed.

Lemma tick_missing_versions (s : St) n' listed :
  list_available_versions client (net s) = (n', Normal listed) ->
  listed <> [] ->
  missing_versions (fst (tick s)) =
  missing_versions
    (fst (for_each (sorted (elements (target_set window_size (sorted listed) s)))
            (body (sorted listed)) (after_planning n' s))).
Proof.
  intros Hls Hne. rewrite (tick_nonempty _ _ _ _ _ _ Hls Hne). reflexivity.
Qed.

(** C9 (as the code has it).  A targeted version that is not in the catalog
    of one tick is in the missing set when that tick ends.  When the catalog
    of the next tick has it, it is in the target list of that tick.  Reached
    by the [for] loop with no payload on disk, it is fetched, and when the
    fetch returns a path (into a directory that exists) it is out of the
    missing set when the tick ends.  Reached with its payload already on
    disk, it is not fetched and leaves the missing set all the same. *)
Theorem missing_version_is_reconciled_when_it_appears
    (s0 : St) version n1 catalog1 n2 catalog2 :
  list_available_versions client (net s0) = (n1, Normal catalog1) ->
  catalog1 <> [] ->
  version ∉ catalog1 ->
  version ∈ target_set window_size (sorted catalog1) s0 ->
  let s1 := fst (main_while_body client versions_to_keep window_size s0) in
  list_available_versions client (net s1) = (n2, Normal catalog2) ->
  version ∈ catalog2 ->
  let available_versions := sorted catalog2 in
  let targets :=
    sorted (elements (target_set window_size available_versions s1)) in
  version ∈ missing_versions s1 /\
  version ∈ targets /\
  exists before after,
    targets = before ++ version :: after /\
    let sv :=
      fst (for_each before
             (main_for_body client versions_to_keep available_versions)
             (after_planning n2 s1)) in
    let sv' :=
      fst (main_for_body client versions_to_keep available_versions
             version sv) in
    let s2 := fst (main_while_body client versions_to_keep window_size s1) in
    (model_safetensors version ∉ fs sv ->
       Call_download_version version ∈ added_events sv sv' /\
       forall n3 files p,
         download_version client version (model_safetensors version)
           (net sv) (fs sv) = (n3, files, Normal (Some p)) ->
         step_dir version ∈ files ->
         version ∉ missing_versions s2) /\
    (model_safetensors version ∈ fs sv ->
       (Call_download_version version ∉ added_events sv sv') /\
       (version ∉ missing_versions s2)).
Proof.
  intros Hls1 Hne1 Hout Htgt s1 Hls2 Hin available_versions targets.
  assert (version ∈ missing_versions s1) as Hmiss.
  { unfold s1. rewrite (tick_missing_versions _ _ _ Hls1 Hne1).
    apply elem_of_sorted_elements in Htgt.
    destruct (NoDup_split version _ (sorted_elements_NoDup _) Htgt)
      as (l1 & l2 & -> & _ & Hl2).
    rewrite fst_for_each_app, for_each_cons_body.
    apply (proj1 (for_each_same_missing_at (sorted catalog1) version l2 Hl2 _)).
    apply main_for_body_absent_goes_missing.
    rewrite elem_of_sorted. exact Hout. }
  assert (version ∈ targets) as Htgt2.
  { unfold targets. apply elem_of_sorted_elements. unfold target_set.
    set_solver. }
  split; [exact Hmiss|]. split; [exact Htgt2|].
  destruct (NoDup_split version targets (sorted_elements_NoDup _) Htgt2)
    as (before & after & Heq & _ & Hafter).
  exists before, after. split; [exact Heq|]. cbv zeta.
  assert (catalog2 <> []) as Hne2 by (intros ->; inversion Hin).
  assert (version ∈ available_versions) as Hav
    by (apply elem_of_sorted; exact Hin).
  assert (Hend :
    missing_versions (fst (tick s1)) =
    missing_versions
      (fst (for_each after (body available_versions)
              (fst (body available_versions version
                 (fst (for_each before (body available_versions)
                         (after_planning n2 s1)))))))).
  { rewrite (tick_missing_versions _ _ _ Hls2 Hne2).
    fold available_versions. fold targets. rewrite Heq.
    rewrite fst_for_each_app, for_each_cons_body. reflexivity. }
  split.
  - intros Hp. split.
    + apply main_for_body_absent_is_fetched; assumption.
    + intros n3 files p Hdl Hdir. rewrite Hend.
      intros Hm.
      apply (proj2 (for_each_same_missing_at available_versions version after
                      Hafter _)) in Hm.
      revert Hm. eapply main_for_body_fetched_leaves_missing; eassumption.
  - intros Hp.
    destruct (main_for_body_present_is_skipped available_versions version _
                Hav Hp) as [Hnd Hnm].
    split; [exact Hnd|]. rewrite Hend. intros Hm.
    apply (proj2 (for_each_same_missing_at available_versions version after
                    Hafter _)) in Hm.
    contradiction.
Qed.

End Convergence.

(** ** The condition on the files is kept by the loop *)

Section Files.

Context {Net : Type}.
Variable client : ClientNode Net.
Variable versions_to_keep : Z.
Variable window_size : Z.
Hypothesis client_well_behaved : well_behaved client.

Local Abbreviation St := (Store Net).

Lemma main_for_body_keeps_marker_implies_payload available_versions version :
  relates keeps_marker_implies_payload
    (main_for_body client versions_to_keep available_versions version).
Proof.
  intros s. unfold keeps_marker_implies_payload.
  exec; cbn [fs]; try (intros H; exact H);
    match goal with
    | Hdl : download_version _ _ _ _ _ = _ |- _ =>
        destruct (client_well_behaved _ _ _ _ _ _ Hdl) as [Hkeep Hdest]
    end;
    intros Hfs; specialize (Hkeep Hfs);
    try specialize (Hdest _ eq_refl);
    try exact Hkeep;
    intros u Hu; specialize (Hkeep u);
    destruct (decide (u = version)) as [->|Hne];
    try set_solver;
    (destruct (decide (version - versions_to_keep = version)) as [Heq|Hneq];
     [ rewrite Heq in *; set_solver
     | assert (model_safetensors version
               <> model_safetensors (version - versions_to_keep))
         by congruence;
       set_solver ]).
Qed.


End Files.

(** ** The properties at concrete inputs *)

Ltac by_computing :=
  match goal with
  | |- ?P => apply (bool_decide_unpack P); vm_compute; exact I
  end.

Lemma fetch_returning_none_changes_nothing_witness :
  7 ∈ [7] /\
  (model_safetensors 7 ∉ fs fresh_store) /\
  main_for_body (scripted_client fetch_none) 2 [7] 7 fresh_store =
    (mkStore ∅ ∅ (-1) [] ∅
       [Log INFO (Downloading_version 7); Call_download_version 7;
        Log INFO (Downloaded_version 7)],
     Normal tt).
Proof.
  assert (H1 : 7 ∈ [7]) by by_computing.
  assert (H2 : model_safetensors 7 ∉ fs fresh_store) by by_computing.
  split; [exact H1|]. split; [exact H2|].
  exact (fetch_returning_none_changes_nothing (scripted_client fetch_none) 2
           [7] 7 fresh_store [] ∅ H1 H2 eq_refl).
Defined.

Lemma fetch_exception_is_contained_witness :
  7 ∈ [7; 8] /\
  (model_safetensors 7 ∉ fs fresh_store) /\
  7 ∈ missing_versions
        (after_failed_fetch 7 (OtherException "ConnectionError") [] ∅
           fresh_store) /\
  snd (for_each ([] ++ 7 :: [8])
         (main_for_body (scripted_client (fetch_fails_on 7)) 2 [7; 8])
         fresh_store) = Normal tt.
Proof.
  assert (H1 : 7 ∈ [7; 8]) by by_computing.
  assert (H2 : model_safetensors 7 ∉ fs fresh_store) by by_computing.
  split; [exact H1|]. split; [exact H2|].
  destruct (fetch_exception_is_contained (scripted_client (fetch_fails_on 7)) 2
              [7; 8] [] 7 [8] fresh_store
              (OtherException "ConnectionError") [] ∅ H1 H2 eq_refl)
    as (_ & Hmiss & _ & _ & Hend).
  split; [exact Hmiss | exact Hend].
Defined.

Lemma absent_expired_version_is_a_logged_no_op_witness :
  2 <> -1 /\
  7 ∈ [7; 8] /\
  (model_safetensors 7 ∉ fs fresh_store) /\
  step_dir 7 ∈ ({[step_dir 7; model_safetensors 7]} ∪ ∅ : gset path) /\
  (model_safetensors (7 - 2)
     ∉ ({[step_dir 7; model_safetensors 7]} ∪ ∅ : gset path)) /\
  snd (for_each [7; 8] (main_for_body (scripted_client fetch_ok) 2 [7; 8])
         fresh_store) = Normal tt.
Proof.
  assert (H0 : 2 <> -1) by lia.
  assert (H1 : 7 ∈ [7; 8]) by by_computing.
  assert (H2 : model_safetensors 7 ∉ fs fresh_store) by by_computing.
  assert (H3 : step_dir 7 ∈ ({[step_dir 7; model_safetensors 7]} ∪ ∅ : gset path))
    by by_computing.
  assert (H4 : model_safetensors (7 - 2)
               ∉ ({[step_dir 7; model_safetensors 7]} ∪ ∅ : gset path))
    by by_computing.
  repeat (split; [assumption|]).
  exact (proj2 (proj2
    (absent_expired_version_is_a_logged_no_op (scripted_client fetch_ok) 2
       [7; 8] 7 [8] fresh_store [] _ (model_safetensors 7)
       H0 H1 H2 eq_refl H3 H4))).
Defined.

Lemma stable_version_is_skipped_witness :
  marker_implies_payload disk_with_7 /\
  7 ∈ [7] /\
  stable 7 ∈ disk_with_7 /\
  main_for_body (scripted_client fetch_ok) 2 [7] 7 (initial (-1) [] disk_with_7) =
    (mkStore ({[7]} ∪ ∅) (∅ ∖ {[7]}) (-1) [] disk_with_7
       [Log INFO (Version_already_exists_locally 7)],
     Normal tt).
Proof.
  assert (H0 : marker_implies_payload disk_with_7).
  { intros v Hv. unfold disk_with_7 in *.
    assert (v = 7) as -> by set_solver. by_computing. }
  assert (H1 : 7 ∈ [7]) by by_computing.
  assert (H2 : stable 7 ∈ disk_with_7) by by_computing.
  repeat (split; [assumption|]).
  exact (proj1 (stable_version_is_skipped (scripted_client fetch_ok) 2 [7] 7
                  (initial (-1) [] disk_with_7) H0 H1 H2)).
Defined.

Lemma version_not_on_server_goes_missing_witness :
  (3 ∉ [10]) /\
  main_for_body (scripted_client fetch_ok) 2 [10] 3 fresh_store =
    (mkStore ({[3]} ∪ ∅) ({[3]} ∪ ∅) (-1) [] ∅
       [Log WARNING (Version_not_found_on_server 3)],
     Normal tt).
Proof.
  assert (H1 : 3 ∉ [10]) by by_computing.
  split; [exact H1|].
  exact (proj1 (version_not_on_server_goes_missing (scripted_client fetch_ok) 2
                  [10] 3 fresh_store H1)).
Defined.

Lemma empty_catalog_tick_is_idle_witness :
  list_available_versions (scripted_client fetch_ok) (net fresh_store)
    = ([], Normal []) /\
  main_while_body (scripted_client fetch_ok) 2 2 fresh_store =
    (mkStore ({[-1]} ∪ ∅) ∅ (-1) [] ∅
       [Call_list_available_versions; Log WARNING No_versions_available;
        Call_sleep],
     Normal tt).
Proof.
  split; [reflexivity|].
  exact (proj1 (empty_catalog_tick_is_idle (scripted_client fetch_ok) 2 2
                  fresh_store [] eq_refl)).
Defined.

Lemma backlog_cursor_sweeps_one_per_tick_witness :
  0 <= 3 /\
  backlog_version
    (fst (main (scripted_client fetch_ok) 2 2 3 late_catalogs ∅ 2)) =
  3 + Z.of_nat
        (length
           (planned
              (trace
                 (fst (main (scripted_client fetch_ok) 2 2 3 late_catalogs ∅ 2))))).
Proof.
  assert (H0 : 0 <= 3) by lia.
  split; [exact H0|].
  exact (proj1 (backlog_cursor_sweeps_one_per_tick (scripted_client fetch_ok)
                  2 2 3 late_catalogs ∅ 2 H0)).
Defined.

Lemma missing_version_is_reconciled_when_it_appears_witness :
  [10] <> [] /\
  (3 ∉ [10]) /\
  3 ∈ target_set 2 (sorted [10]) (initial 3 late_catalogs ∅) /\
  3 ∈ [3; 10] /\
  3 ∈ missing_versions
        (fst (main_while_body (scripted_client fetch_ok) (-1) 2
                (initial 3 late_catalogs ∅))).
Proof.
  assert (H1 : [10] <> @nil Z) by discriminate.
  assert (H2 : 3 ∉ [10]) by by_computing.
  assert (H3 : 3 ∈ target_set 2 (sorted [10]) (initial 3 late_catalogs ∅))
    by by_computing.
  assert (H4 : 3 ∈ [3; 10]) by by_computing.
  assert (H5 : list_available_versions (scripted_client fetch_ok)
                 (net (fst (main_while_body (scripted_client fetch_ok) (-1) 2
                              (initial 3 late_catalogs ∅))))
               = ([], Normal [3; 10])) by (vm_compute; reflexivity).
  repeat (split; [assumption|]).
  exact (proj1 (missing_version_is_reconciled_when_it_appears
                  (scripted_client fetch_ok) (-1) 2
                  (initial 3 late_catalogs ∅) 3 [[3; 10]] [10] [] [3; 10]
                  eq_refl H1 H2 H3 H5 H4)).
Defined.

(** C4, the claim as it is written, fails.  Version 7 is fetched with a
    horizon of 2 while the marker of version 5 is on disk without its
    payload: the [unlink] of the payload raises, the [unlink] of the marker
    is never called, and the marker is still there afterwards. *)
Lemma marker_unlink_skipped_when_payload_absent :
  (model_safetensors (7 - 2) ∉ fs lone_marker_store) /\
  stable (7 - 2) ∈ fs lone_marker_store /\
  Call_touch (stable 7)
    ∈ trace (fst (main_for_body (scripted_client fetch_ok) 2 [7] 7
                    lone_marker_store)) /\
  Call_unlink (model_safetensors (7 - 2))
    ∈ trace (fst (main_for_body (scripted_client fetch_ok) 2 [7] 7
                    lone_marker_store)) /\
  (Call_unlink (stable (7 - 2))
     ∉ trace (fst (main_for_body (scripted_client fetch_ok) 2 [7] 7
                     lone_marker_store))) /\
  stable (7 - 2)
    ∈ fs (fst (main_for_body (scripted_client fetch_ok) 2 [7] 7
                 lone_marker_store)).
Proof. repeat split; by_computing. Qed.

(** C9, the claim as it is written, fails.  Version 3 is the backlog
    version; its files are on disk from an earlier run.  The first catalog
    does not list it, so it goes to the missing set; the second catalog
    lists it, so it is a target of the second tick, but it is skipped as
    "already exists locally": in the two ticks [download_version] is never
    called for it. *)
Lemma version_on_disk_is_not_fetched_when_it_appears :
  Log WARNING (Version_not_found_on_server 3)
    ∈ trace (fst (main (scripted_client fetch_ok) (-1) 2 3
                    late_catalogs disk_with_3 2)) /\
  Log INFO (Current_versions [10] [3; 10] [3])
    ∈ trace (fst (main (scripted_client fetch_ok) (-1) 2 3
                    late_catalogs disk_with_3 2)) /\
  Log INFO (Current_versions [3; 10] [3; 4; 10] [4])
    ∈ trace (fst (main (scripted_client fetch_ok) (-1) 2 3
                    late_catalogs disk_with_3 2)) /\
  Call_download_version 3
    ∉ trace (fst (main (scripted_client fetch_ok) (-1) 2 3
                    late_catalogs disk_with_3 2)).
Proof. repeat split; by_computing. Qed.

(** With [window_size = 0] a tick on the catalog 3, 4, 5 targets and
    downloads all three versions. *)
Example window_zero_downloads_whole_catalog :
  planned (trace (fst (main (scripted_client fetch_ok) (-1) 0 (-1)
                         [[3; 4; 5]] ∅ 1))) = [[3; 4; 5]] /\
  count (fun e => bool_decide (e = Call_download_version 3
                               \/ e = Call_download_version 4
                               \/ e = Call_download_version 5))
    (trace (fst (main (scripted_client fetch_ok) (-1) 0 (-1)
                   [[3; 4; 5]] ∅ 1))) = 3%nat.
Proof. split; vm_compute; reflexivity. Qed.

(** * More on the downloader loop *)

(** ** The window for the other sizes *)

(** X1.  For a window size above zero, on the catalog as the loop sorts it,
    the window is its last [window_size] entries, all of them when the
    catalog is shorter, and no entry left out is greater than one kept. *)
Theorem window_holds_the_latest_versions (w : Z) (listed : list Z) :
  0 < w ->
  let catalog := sorted listed in
  window w catalog = drop (length catalog - Z.to_nat w) catalog /\
  length (window w catalog) = Nat.min (Z.to_nat w) (length listed) /\
  forall x y,
    x ∈ take (length catalog - Z.to_nat w) catalog ->
    y ∈ window w catalog -> x <= y.
Proof.
  intros Hw catalog. split; [apply window_positive, Hw|]. split.
  - rewrite window_positive_length by exact Hw. f_equal.
    unfold catalog. apply Permutation_length, sorted_Permutation.
  - apply window_positive_greatest; [exact Hw | apply sorted_Sorted].
Qed.

(** X2.  A window size below zero turns the slice around: the window is the
    catalog without its first [- window_size] entries, so it drops the
    oldest versions and keeps all the others. *)
Theorem negative_window_drops_the_oldest (w : Z) (catalog : list Z) :
  w < 0 ->
  window w catalog = drop (Z.to_nat (- w)) catalog.
Proof.
  intros Hw. unfold window, slice_from.
  destruct (Z.ltb_spec (- w) 0) as [|_]; [lia|].
  destruct (Z.le_gt_cases (- w) (Z.of_nat (length catalog))) as [Hle|Hgt].
  - rewrite Z.min_l by exact Hle. reflexivity.
  - rewrite Z.min_r by lia. rewrite Nat2Z.id.
    rewrite !drop_ge by lia. reflexivity.
Qed.

(** ** The other ways through the body of the [for] loop *)

Ltac in_events H :=
  repeat (apply elem_of_cons in H as [H|H];
          [first [discriminate H | injection H as H; subst] |]);
  try (apply elem_of_nil in H; contradiction).

Section More_branches.

Context {Net : Type}.
Variable client : ClientNode Net.
Variable versions_to_keep : Z.
Variable window_size : Z.

Local Abbreviation St := (Store Net).

Ltac store_eq' :=
  rewrite ?bool_decide_eq_true_2, ?bool_decide_eq_false_2 by assumption;
  f_equal; f_equal;
  try reflexivity; try set_solver;
  rewrite <- ?app_assoc, ?app_nil_r; reflexivity.

(** The store after a fetch that returned a path, up to the sweep. *)
Lemma fetched_then_swept available_versions version (s : St) n' files' p :
  version ∈ available_versions ->
  model_safetensors version ∉ fs s ->
  download_version client version (model_safetensors version) (net s) (fs s)
    = (n', files', Normal (Some p)) ->
  step_dir version ∈ files' ->
  main_for_body client versions_to_keep available_versions version s =
  bind (when (negb (versions_to_keep =? -1))
          (delete_expired versions_to_keep version))
       (fun _ =>
          bind (get missing_versions)
            (fun missing =>
               when (bool_decide (version ∈ missing))
                 (modify (set_missing (fun m => m ∖ {[version]})))))
       (mkStore (logged_versions s) (missing_versions s) (backlog_version s)
          n' ({[stable version]} ∪ files')
          (trace s ++ [Log INFO (Downloading_version version);
                       Call_download_version version;
                       Log INFO (Downloaded_version version);
                       Call_touch (stable version)])).
Proof.
  intros Hin Hfs Hdl Hdir.
  unfold main_for_body. decide_true Hin.
  unfold bind at 1, path_exists, get. decide_false Hfs.
  unfold bind at 1, logger_info, modify. cbn [fst snd].
  unfold try_except, bind at 1, client_download_version. unfold_store.
  rewrite Hdl. cbn [fst snd]. unfold bind at 1. unfold_store.
  unfold bind at 1, path_touch. unfold_store. cbn [parent].
  decide_true Hdir. unfold_store. rewrite <- !app_assoc. cbn [app].
  destruct (bind _ _ _) as [s' [[]|e]] eqn:Hrest; [reflexivity|].
  exfalso. revert Hrest. run_py. unfold_store.
  repeat (exec_step; cbn [fst snd]; unfold_store); discriminate.
Qed.

(** X3.  The plain success: no horizon is configured ([versions_to_keep =
    -1]), the download returns a path and the directory is there.  The
    marker is written, the version leaves the missing set, nothing is
    removed. *)
Theorem fetched_version_is_marked_stable
    available_versions version (s : St) n' files' p :
  version ∈ available_versions ->
  model_safetensors version ∉ fs s ->
  download_version client version (model_safetensors version) (net s) (fs s)
    = (n', files', Normal (Some p)) ->
  step_dir version ∈ files' ->
  main_for_body client (-1) available_versions version s =
    (mkStore (logged_versions s) (missing_versions s ∖ {[version]})
       (backlog_version s) n' ({[stable version]} ∪ files')
       (trace s ++ [Log INFO (Downloading_version version);
                    Call_download_version version;
                    Log INFO (Downloaded_version version);
                    Call_touch (stable version)]),
     Normal tt).
Proof.
  intros Hin Hfs Hdl Hdir. run_py. decide_true Hin. decide_false Hfs.
  unfold_store. rewrite Hdl. cbn [fst snd]. unfold_store. cbn [parent].
  decide_true Hdir. unfold_store.
  rewrite Z.eqb_refl. cbn [negb]. unfold_store.
  destruct (decide (version ∈ missing_versions s)) as [Hm|Hm];
    [decide_true Hm | decide_false Hm]; unfold_store; store_eq'.
Qed.

(** X4.  The download returned a path but the directory of the version is
    not there:  [touch] raises [FileNotFoundError], which the handler of the
    download catches.  The version goes to the missing set with the "Error
    downloading" warning; no marker is written and the expired version is
    not looked at. *)
Theorem missing_directory_counts_as_failed_fetch
    available_versions version (s : St) n' files' p :
  version ∈ available_versions ->
  model_safetensors version ∉ fs s ->
  download_version client version (model_safetensors version) (net s) (fs s)
    = (n', files', Normal (Some p)) ->
  step_dir version ∉ files' ->
  main_for_body client versions_to_keep available_versions version s =
    (mkStore (logged_versions s) ({[version]} ∪ missing_versions s)
       (backlog_version s) n' files'
       (trace s ++ [Log INFO (Downloading_version version);
                    Call_download_version version;
                    Log INFO (Downloaded_version version);
                    Call_touch (stable version);
                    Log WARNING
                      (Error_downloading_version version FileNotFoundError)]),
     Normal tt).
Proof.
  intros Hin Hfs Hdl Hdir. run_py. decide_true Hin. decide_false Hfs.
  unfold_store. rewrite Hdl. cbn [fst snd]. unfold_store. cbn [parent].
  decide_false Hdir. unfold_store. store_eq'.
Qed.

(** X5.  A version was just fetched, a horizon is configured, and the
    expired version has its payload and its marker on disk: both are
    removed, and nothing else is.  The body does not ask whether the expired
    version is still a target. *)
Theorem expired_version_is_removed
    available_versions version (s : St) n' files' p :
  versions_to_keep <> -1 ->
  version ∈ available_versions ->
  model_safetensors version ∉ fs s ->
  download_version client version (model_safetensors version) (net s) (fs s)
    = (n', files', Normal (Some p)) ->
  step_dir version ∈ files' ->
  let expired := version - versions_to_keep in
  model_safetensors expired ∈ files' ->
  stable expired ∈ ({[stable version]} ∪ files' : gset path) ->
  main_for_body client versions_to_keep available_versions version s =
    (mkStore (logged_versions s) (missing_versions s ∖ {[version]})
       (backlog_version s) n'
       (({[stable version]} ∪ files')
          ∖ {[model_safetensors expired]} ∖ {[stable expired]})
       (trace s ++ [Log INFO (Downloading_version version);
                    Call_download_version version;
                    Log INFO (Downloaded_version version);
                    Call_touch (stable version);
                    Log INFO (Deleting_expired_version expired);
                    Call_unlink (model_safetensors expired);
                    Call_unlink (stable expired)]),
     Normal tt).
Proof.
  intros Hk Hin Hfs Hdl Hdir expired Hpay Hmark.
  rewrite (fetched_then_swept _ _ _ _ _ _ Hin Hfs Hdl Hdir).
  destruct (Z.eqb_spec versions_to_keep (-1)) as [|_]; [contradiction|].
  run_py. unfold_store. fold expired.
  assert (model_safetensors expired ∈ ({[stable version]} ∪ files' : gset path))
    as Hpay' by set_solver.
  decide_true Hpay'. unfold_store.
  assert (stable expired
          ∈ (({[stable version]} ∪ files') ∖ {[model_safetensors expired]}
             : gset path)) as Hmark' by set_solver.
  decide_true Hmark'. unfold_store.
  destruct (decide (version ∈ missing_versions s)) as [Hm|Hm];
    [decide_true Hm | decide_false Hm]; unfold_store; store_eq'.
Qed.

(** X6.  With [versions_to_keep = 0] the expired version is the version
    itself: a fetch that succeeds is undone at once.  After the body neither
    the payload nor the marker of the version is on disk, and the version is
    not in the missing set either. *)
Theorem zero_horizon_removes_what_it_fetched
    available_versions version (s : St) n' files' p :
  version ∈ available_versions ->
  model_safetensors version ∉ fs s ->
  download_version client version (model_safetensors version) (net s) (fs s)
    = (n', files', Normal (Some p)) ->
  step_dir version ∈ files' ->
  model_safetensors version ∈ files' ->
  let s' := fst (main_for_body client 0 available_versions version s) in
  (model_safetensors version ∉ fs s') /\
  (stable version ∉ fs s') /\
  (version ∉ missing_versions s') /\
  Call_unlink (model_safetensors version) ∈ added_events s s' /\
  Call_unlink (stable version) ∈ added_events s s'.
Proof.
  intros Hin Hfs Hdl Hdir Hpay. cbv zeta. unfold added_events.
  run_py. decide_true Hin. decide_false Hfs.
  unfold_store. rewrite Hdl. cbn [fst snd]. unfold_store. cbn [parent].
  decide_true Hdir. unfold_store.
  change (0 =? -1) with false. cbn [negb]. unfold_store.
  rewrite Z.sub_0_r.
  assert (model_safetensors version ∈ ({[stable version]} ∪ files' : gset path))
    as Hpay' by set_solver.
  decide_true Hpay'. unfold_store.
  assert (stable version
          ∈ (({[stable version]} ∪ files') ∖ {[model_safetensors version]}
             : gset path)) as Hmark' by set_solver.
  decide_true Hmark'. unfold_store.
  destruct (decide (version ∈ missing_versions s)) as [Hm|Hm];
    [decide_true Hm | decide_false Hm]; unfold_store;
    cbn [fst snd fs trace missing_versions];
    rewrite <- ?app_assoc, drop_app_length; set_solver.
Qed.

(** X7.  The body writes no marker but the one of its own version, and that
    only after [download_version] returned a path for it. *)
Theorem marker_is_touched_only_after_a_fetch
    available_versions version (s : St) p :
  Call_touch p
    ∈ added_events s
        (fst (main_for_body client versions_to_keep available_versions
                version s)) ->
  p = stable version /\
  version ∈ available_versions /\
  (model_safetensors version ∉ fs s) /\
  exists n' files' q,
    download_version client version (model_safetensors version)
      (net s) (fs s) = (n', files', Normal (Some q)).
Proof.
  unfold added_events. exec; cbn [trace];
    rewrite <- ?app_assoc, ?drop_app_length, ?drop_all; cbn [app];
    intros Hin; in_events Hin; eauto 10.
Qed.

(** X8.  The body removes no file but the payload and the marker of the
    expired version, and those only with a horizon configured, after
    [download_version] returned a path and the marker was written. *)
Theorem only_the_expired_version_is_unlinked
    available_versions version (s : St) p :
  Call_unlink p
    ∈ added_events s
        (fst (main_for_body client versions_to_keep available_versions
                version s)) ->
  versions_to_keep <> -1 /\
  (p = model_safetensors (version - versions_to_keep)
   \/ p = stable (version - versions_to_keep)) /\
  exists n' files' q,
    download_version client version (model_safetensors version)
      (net s) (fs s) = (n', files', Normal (Some q)) /\
    step_dir version ∈ files'.
Proof.
  unfold added_events. exec; cbn [trace];
    rewrite <- ?app_assoc, ?drop_app_length, ?drop_all; cbn [app];
    intros Hin; in_events Hin; cbn [parent] in *; eauto 10.
Qed.

End More_branches.

(** ** The other ways through a tick *)

Lemma count_pair_le_guarded_logs (p q : event -> bool) key tr :
  (forall e, p e = true -> logged_key e = Some key) ->
  (forall e, q e = true -> logged_key e = Some key) ->
  (forall e, p e = true -> q e = true -> False) ->
  (count p tr + count q tr <= length (guarded_logs key tr))%nat.
Proof.
  intros Hp Hq Hpq. unfold count, guarded_logs.
  induction tr as [|e tr IH]; [reflexivity|].
  rewrite !filter_cons.
  destruct (decide (p e = true)) as [He|He];
    destruct (decide (q e = true)) as [He'|He'].
  - exfalso. eauto.
  - rewrite decide_True by (apply Hp, He). cbn. lia.
  - rewrite decide_True by (apply Hq, He'). cbn. lia.
  - destruct (decide (logged_key e = Some key)); cbn; lia.
Qed.

Section More_ticks.

Context {Net : Type}.
Variable client : ClientNode Net.
Variable versions_to_keep : Z.
Variable window_size : Z.

Local Abbreviation St := (Store Net).

(** X9.  [list_available_versions] is called outside every [try]: when it
    raises, the exception leaves the tick and the loop with it.  Nothing but
    the call is on the trace, and no later tick runs, however many were to
    come. *)
Theorem poll_exception_ends_the_loop (s : St) n' e ticks :
  list_available_versions client (net s) = (n', Raised e) ->
  main_loop client versions_to_keep window_size (S ticks) s =
    (mkStore (logged_versions s) (missing_versions s) (backlog_version s)
       n' (fs s) (trace s ++ [Call_list_available_versions]),
     Raised e).
Proof.
  intros Hls. cbn [main_loop]. unfold bind.
  rewrite (tick_poll_raises _ _ _ _ _ _ Hls). reflexivity.
Qed.

Lemma main_for_body_missing_within targets available_versions version :
  version ∈ targets ->
  relates (missing_within targets)
    (main_for_body client versions_to_keep available_versions version).
Proof. intros Hv s. unfold missing_within. exec; set_solver. Qed.

(** X11.  On a tick with a catalog every version of the missing set is a
    target, and when the tick ends the missing set holds targets of that
    tick only: a version that was not planned is never marked missing. *)
Theorem missing_versions_are_targets (s : St) n' listed :
  list_available_versions client (net s) = (n', Normal listed) ->
  listed <> [] ->
  let targets := target_set window_size (sorted listed) s in
  missing_versions s ⊆ targets /\
  missing_versions
    (fst (main_while_body client versions_to_keep window_size s)) ⊆ targets.
Proof.
  intros Hls Hne targets.
  assert (missing_versions s ⊆ targets) as Hsub
    by (unfold targets, target_set; set_solver).
  split; [exact Hsub|].
  rewrite (tick_missing_versions _ _ _ _ _ _ Hls Hne). fold targets.
  assert (relates (missing_within targets)
            (for_each (sorted (elements targets))
               (main_for_body client versions_to_keep (sorted listed))))
    as Hfor.
  { apply (relates_for_each (missing_within targets)).
    - intros s0. unfold missing_within. set_solver.
    - intros s1 s2 s3. unfold missing_within. set_solver.
    - intros v Hv. apply main_for_body_missing_within.
      apply elem_of_sorted_elements, Hv. }
  specialize (Hfor (after_planning n' s)). unfold missing_within in Hfor.
  assert (missing_versions (after_planning n' s) = missing_versions s) as Heq.
  { unfold after_planning, advance_backlog. unfold_store.
    case_match; reflexivity. }
  rewrite Heq in Hfor. set_solver.
Qed.

(** X12.  "not found on server" and "already exists locally" are guarded by
    the same set: a version that got one of the two records never gets the
    other, in a whole run of the loop. *)
Theorem one_guarded_record_for_a_version v backlog net0 fs0 ticks :
  (count (is_not_found v)
     (trace (fst (main client versions_to_keep window_size
                    backlog net0 fs0 ticks)))
   + count (is_already_exists v)
       (trace (fst (main client versions_to_keep window_size
                      backlog net0 fs0 ticks))) <= 1)%nat.
Proof.
  pose proof (main_logged_once client versions_to_keep window_size
                backlog net0 fs0 ticks v) as [_ Hlen].
  pose proof (count_pair_le_guarded_logs (is_not_found v) (is_already_exists v)
                v (trace (fst (main client versions_to_keep window_size
                                 backlog net0 fs0 ticks)))
                (is_not_found_key v) (is_already_exists_key v)) as Hc.
  assert (forall e, is_not_found v e = true ->
                    is_already_exists v e = true -> False) as Hdisj.
  { intros [lvl []| | | | |]; cbn; intros; discriminate. }
  specialize (Hc Hdisj). lia.
Qed.

End More_ticks.

(** * The topology of a distributed run *)

Arguments WorldInfo.sum : simpl never.

Section World_info.

Import WorldInfo.

Lemma fold_left_add_shift (xs : list Z) (a : Z) :
  fold_left Z.add xs a = a + fold_left Z.add xs 0.
Proof.
  revert a. induction xs as [|x xs IH]; intros a; cbn.
  - lia.
  - rewrite (IH (a + x)), (IH (0 + x)). lia.
Qed.

Lemma sum_cons (x : Z) (xs : list Z) : sum (x :: xs) = x + sum xs.
Proof. unfold sum. cbn. apply fold_left_add_shift. Qed.

Lemma sum_nonneg_ge (xs : list Z) (i : nat) (x : Z) :
  Forall (fun y => 0 <= y) xs -> xs !! i = Some x -> x <= sum xs.
Proof.
  intros Hall. revert i. induction Hall as [|y ys Hy Hys IH]; intros i Hi.
  - rewrite lookup_nil in Hi. discriminate.
  - rewrite sum_cons.
    assert (0 <= sum ys) as Hs.
    { clear IH Hi. induction Hys as [|z zs Hz _ IHz]; [unfold sum; cbn; lia|].
      rewrite sum_cons. lia. }
    destruct i as [|i]; cbn in Hi.
    + injection Hi as ->. lia.
    + specialize (IH _ Hi). lia.
Qed.

(** The loop over the groups stops at the first group whose end is above
    the rank. *)
Lemma find_group_Some (rnk cumulative : Z) (idx : nat) (sizes : list Z)
    lr size j :
  find_group rnk cumulative idx sizes = Some (lr, size, j) ->
  cumulative <= rnk ->
  exists k : nat,
    j = (idx + k)%nat /\ sizes !! k = Some size /\
    lr = rnk - cumulative - sum (take k sizes) /\ 0 <= lr < size.
Proof.
  revert cumulative idx. induction sizes as [|s sizes IH];
    intros cumulative idx Hfind Hle; cbn in Hfind; [discriminate|].
  destruct (Z.ltb_spec rnk (cumulative + s)) as [Hlt|Hge].
  - injection Hfind as <- <- <-. exists 0%nat. cbn.
    split; [lia|]. split; [reflexivity|]. unfold sum; cbn; lia.
  - destruct (IH _ _ Hfind Hge) as (k & -> & Hk & -> & Hlr).
    exists (S k). change (take (S k) (s :: sizes)) with (s :: take k sizes).
    rewrite sum_cons.
    split; [lia|]. split; [exact Hk|]. lia.
Qed.

Lemma find_group_finds (rnk cumulative : Z) (idx : nat) (sizes : list Z) :
  cumulative <= rnk ->
  rnk < cumulative + sum sizes ->
  exists res, find_group rnk cumulative idx sizes = Some res.
Proof.
  revert cumulative idx. induction sizes as [|s sizes IH];
    intros cumulative idx Hle Hlt; cbn.
  - unfold sum in Hlt; cbn in Hlt. lia.
  - destruct (Z.ltb_spec rnk (cumulative + s)); [eauto|].
    apply IH; [lia|]. rewrite sum_cons in Hlt. lia.
Qed.

Lemma getitem_in_range (xs : list Z) (k : nat) (x : Z) :
  xs !! k = Some x -> getitem xs (Z.of_nat k) = Ok x.
Proof.
  intros Hk. pose proof (lookup_lt_Some _ _ _ Hk) as Hlt.
  unfold getitem.
  destruct (Z.ltb_spec (Z.of_nat k) 0); [lia|].
  destruct (Z.leb_spec 0 (Z.of_nat k)); [|lia].
  destruct (Z.ltb_spec (Z.of_nat k) (Z.of_nat (length xs))); [|lia].
  cbn. rewrite Nat2Z.id, Hk. reflexivity.
Qed.

Ltac assert_inv H :=
  match type of H with
  | context [assert ?b ?m] =>
      let Hb := fresh "Hb" in
      destruct b eqn:Hb; cbn [assert bind] in H; [|discriminate H]
  end.

(** X14.  With group sizes given (by the argument or, failing that, by the
    environment) a [WorldInfo] that was built places its rank: the group
    [node_idx] exists, its size is [local_world_size], the sizes of the
    groups before it and [local_rank] add up to [rank], [local_rank] is
    within the group, and there are as many nodes as groups. *)
Theorem grouped_world_info_locates_the_rank
    envs device_count rnk ws lr lws ngs sizes w :
  py_or ngs (NODE_GROUP_SIZES envs) = Some sizes ->
  sizes <> [] ->
  __init__ envs device_count rnk ws lr lws ngs = Ok w ->
  node_group_sizes w = Some sizes /\
  num_nodes w = Z.of_nat (length sizes) /\
  0 <= node_idx w < Z.of_nat (length sizes) /\
  sizes !! Z.to_nat (node_idx w) = Some (local_world_size w) /\
  rank w = sum (take (Z.to_nat (node_idx w)) sizes) + local_rank w /\
  0 <= local_rank w < local_world_size w /\
  sum sizes = world_size w.
Proof.
  intros Hor Hne Hinit. unfold __init__ in Hinit. rewrite Hor in Hinit.
  destruct sizes as [|s0 rest]; [contradiction|].
  set (sizes := s0 :: rest) in *.
  assert_inv Hinit.
  destruct (find_group _ 0 0 sizes) as [[[l sz] j]|] eqn:Hfind;
    cbn [bind] in Hinit; [|discriminate].
  unfold _check_world_info in Hinit. cbn [bind local_rank local_world_size
    rank world_size node_group_sizes node_idx] in Hinit.
  assert_inv Hinit. assert_inv Hinit. assert_inv Hinit. assert_inv Hinit.
  destruct (getitem sizes (Z.of_nat j)) as [x|] eqn:Hget;
    cbn [bind] in Hinit; [|discriminate].
  assert_inv Hinit. injection Hinit as <-.
  cbn [local_rank local_world_size rank world_size node_group_sizes
       node_idx num_nodes].
  apply andb_prop in Hb0 as [H0 H1]. apply andb_prop in Hb1 as [H2 H3].
  destruct (find_group_Some _ _ _ _ _ _ _ Hfind ltac:(lia))
    as (k & -> & Hk & Hlr & Hrange).
  pose proof (lookup_lt_Some _ _ _ Hk) as Hlt.
  rewrite Nat2Z.id. cbn [Nat.add].
  repeat split; try lia; try assumption; try reflexivity.
Qed.

(** X15.  With group sizes given, none of them negative, that sum to the
    world size, every rank from [0] up to the world size gets its
    [WorldInfo]: the constructor does not raise. *)
Theorem grouped_world_info_is_built
    envs device_count rnk ws lr lws ngs sizes :
  py_or ngs (NODE_GROUP_SIZES envs) = Some sizes ->
  sizes <> [] ->
  Forall (fun size => 0 <= size) sizes ->
  sum sizes = if_not_none ws (WORLD_SIZE envs) ->
  0 <= if_not_none rnk (RANK envs) < if_not_none ws (WORLD_SIZE envs) ->
  exists w, __init__ envs device_count rnk ws lr lws ngs = Ok w.
Proof.
  intros Hor Hne Hpos Hsum Hrank. unfold __init__. rewrite Hor.
  destruct sizes as [|s0 rest]; [contradiction|].
  set (sizes := s0 :: rest) in *.
  rewrite (proj2 (Z.eqb_eq _ _) Hsum). cbn [assert bind].
  destruct (find_group_finds (if_not_none rnk (RANK envs)) 0 0 sizes
              ltac:(lia) ltac:(lia)) as [[[l sz] j] Hfind].
  rewrite Hfind. cbn [bind].
  destruct (find_group_Some _ _ _ _ _ _ _ Hfind ltac:(lia))
    as (k & -> & Hk & Hl & Hrange).
  cbn [Nat.add].
  pose proof (sum_nonneg_ge _ _ _ Hpos Hk) as Hle.
  unfold _check_world_info.
  cbn [local_rank local_world_size rank world_size node_group_sizes node_idx].
  replace ((0 <=? l) && (l <? sz)) with true
    by (symmetry; apply andb_true_intro; split; lia).
  replace ((0 <=? if_not_none rnk (RANK envs))
           && (if_not_none rnk (RANK envs) <? if_not_none ws (WORLD_SIZE envs)))
    with true by (symmetry; apply andb_true_intro; split; lia).
  replace (sz <=? if_not_none ws (WORLD_SIZE envs)) with true
    by (symmetry; lia).
  rewrite (proj2 (Z.eqb_eq _ _) Hsum). cbn [assert bind].
  rewrite (getitem_in_range _ _ _ Hk). cbn [bind].
  rewrite Z.eqb_refl. cbn [assert bind]. eauto.
Qed.

(** X16.  Without group sizes the constructor divides by the local world
    size: it raises [ZeroDivisionError] when that is zero, and otherwise
    builds the [WorldInfo] exactly when the local rank is within the local
    world size, the rank within the world size, and the local world size
    divides the world size.  Then the nodes times the local world size make
    the world size, and [node_idx] is the node that holds [rank].  (That
    [local_rank] is the place of [rank] on its node is not checked.) *)
Theorem flat_world_info_is_checked
    envs device_count rnk ws lr lws ngs :
  py_or ngs (NODE_GROUP_SIZES envs) = None ->
  let rank' := if_not_none rnk (RANK envs) in
  let ws' := if_not_none ws (WORLD_SIZE envs) in
  let lr' := if_not_none lr (LOCAL_RANK envs) in
  let lws' := if_not_none lws (LOCAL_WORLD_SIZE envs) in
  (lws' = 0 ->
   __init__ envs device_count rnk ws lr lws ngs = Raise ZeroDivisionError) /\
  ((exists w, __init__ envs device_count rnk ws lr lws ngs = Ok w) <->
   0 <= lr' < lws' /\ 0 <= rank' < ws' /\ ws' mod lws' = 0) /\
  (forall w,
     __init__ envs device_count rnk ws lr lws ngs = Ok w ->
     rank w = rank' /\ world_size w = ws' /\
     local_rank w = lr' /\ local_world_size w = lws' /\
     num_nodes w * lws' = ws' /\
     0 <= node_idx w < num_nodes w /\
     node_idx w * lws' <= rank' < (node_idx w + 1) * lws').
Proof.
  intros Hor rank' ws' lr' lws'.
  assert (Hinit : __init__ envs device_count rnk ws lr lws ngs =
    bind (floordiv ws' lws') (fun nodes =>
    bind (floordiv rank' lws') (fun idx =>
    let ids :=
      match CUDA_VISIBLE_DEVICES envs with
      | Some ((_ :: _) as ids) => ids
      | _ => range device_count
      end in
    let self := mk rank' ws' None lr' lws' idx nodes ids
                  (Z.of_nat (length ids)) in
    bind (_check_world_info self) (fun _ => Ok self)))).
  { unfold __init__. rewrite Hor. fold rank' ws' lr' lws'.
    destruct (floordiv ws' lws'); [|reflexivity]. cbn [bind].
    destruct (floordiv rank' lws'); reflexivity. }
  rewrite Hinit. clear Hinit. unfold floordiv.
  split; [intros ->; reflexivity|].
  destruct (Z.eqb_spec lws' 0) as [Hz|Hnz]; cbn [bind].
  { split.
    - split; [intros [w Hw]; discriminate | lia].
    - intros w Hw. discriminate. }
  unfold _check_world_info, py_mod.
  cbn [local_rank local_world_size rank world_size node_group_sizes node_idx
       num_nodes].
  destruct (Z.eqb_spec lws' 0) as [|_]; [contradiction|].
  destruct ((0 <=? lr') && (lr' <? lws')) eqn:H1; cbn [assert bind].
  2: { split.
       - split; [intros [w Hw]; discriminate|].
         intros (Hlr & _). apply andb_false_iff in H1 as [H1|H1]; lia.
       - intros w Hw. discriminate. }
  apply andb_prop in H1 as [H1a H1b].
  destruct ((0 <=? rank') && (rank' <? ws')) eqn:H2; cbn [assert bind].
  2: { split.
       - split; [intros [w Hw]; discriminate|].
         intros (_ & Hr & _). apply andb_false_iff in H2 as [H2|H2]; lia.
       - intros w Hw. discriminate. }
  apply andb_prop in H2 as [H2a H2b].
  assert (0 < lws') as Hpos by lia.
  destruct (Z.leb_spec lws' ws') as [H3|H3]; cbn [assert bind].
  2: { split.
       - split; [intros [w Hw]; discriminate|].
         intros (_ & _ & Hm). apply Z.mod_divide in Hm; [|lia].
         destruct Hm as [q Hq].
         assert (0 < ws') as Hws by lia.
         destruct (Z.le_gt_cases q 0) as [Hq0|Hq1]; nia.
       - intros w Hw. discriminate. }
  destruct (Z.eqb_spec (ws' mod lws') 0) as [H4|H4]; cbn [assert bind].
  2: { split.
       - split; [intros [w Hw]; discriminate | tauto].
       - intros w Hw. discriminate. }
  split.
  - split; [intros _; lia | eauto].
  - intros w [= <-].
    cbn [local_rank local_world_size rank world_size node_idx num_nodes].
    pose proof (Z.div_mod ws' lws' ltac:(lia)) as Hdm.
    pose proof (Z.div_mod rank' lws' ltac:(lia)) as Hdr.
    pose proof (Z.mod_pos_bound rank' lws' Hpos) as Hmr.
    assert (0 <= rank' / lws') by (apply Z.div_pos; lia).
    assert (rank' / lws' < ws' / lws').
    { apply Z.div_lt_upper_bound; [lia|]. nia. }
    repeat split; try reflexivity; try lia; nia.
Qed.

(** X17.  The module keeps the first [WorldInfo] it built: once
    [get_world_info] has returned one, every later call returns that same
    one and leaves it in place, whatever arguments and environment it is
    called with. *)
Theorem world_info_is_built_once
    envs device_count rnk ws lr lws ngs global global' w :
  get_world_info envs device_count rnk ws lr lws ngs global = (global', Ok w) ->
  global' = Some w /\
  forall envs2 device_count2 rnk2 ws2 lr2 lws2 ngs2,
    get_world_info envs2 device_count2 rnk2 ws2 lr2 lws2 ngs2 global'
    = (global', Ok w).
Proof.
  intros Hget. unfold get_world_info in Hget.
  assert (global' = Some w) as ->.
  { destruct global as [w0|]; [|destruct (__init__ _ _ _ _ _ _ _)];
      congruence. }
  split; [reflexivity|]. intros. reflexivity.
Qed.

(** X18.  A constructor that raised leaves nothing behind: the exception
    comes out of [get_world_info], the module still holds no instance, and
    the next call builds from its own arguments.  The same after
    [reset_world_info]. *)
Theorem failed_world_info_is_not_kept
    envs device_count rnk ws lr lws ngs global global' e :
  get_world_info envs device_count rnk ws lr lws ngs global = (global', Raise e) ->
  global = None /\ global' = None /\
  __init__ envs device_count rnk ws lr lws ngs = Raise e /\
  forall envs2 device_count2 rnk2 ws2 lr2 lws2 ngs2 w2,
    __init__ envs2 device_count2 rnk2 ws2 lr2 lws2 ngs2 = Ok w2 ->
    get_world_info envs2 device_count2 rnk2 ws2 lr2 lws2 ngs2 global'
      = (Some w2, Ok w2) /\
    get_world_info envs2 device_count2 rnk2 ws2 lr2 lws2 ngs2
      (reset_world_info (Some w2)) = (Some w2, Ok w2).
Proof.
  intros Hget. unfold get_world_info in Hget.
  destruct global as [w0|]; [discriminate|].
  destruct (__init__ envs _ _ _ _ _ _) as [w|e'] eqn:Hinit; [discriminate|].
  injection Hget as <- <-.
  repeat split; try reflexivity.
  all: unfold get_world_info, reset_world_info; rewrite H; reflexivity.
Qed.

End World_info.

(** * The rows of a parquet table *)

Section Parquet_rows.

Import Parquet.

Context {Float Meta : Type}.

Local Abbreviation State := (state Float Meta).

Lemma for_each_row_keeps {A} (P : State -> Prop) (xs : list A)
    (body : A -> State -> result State) :
  (forall x st st', x ∈ xs -> body x st = Ok st' -> P st -> P st') ->
  forall st st', for_each_row xs body st = Ok st' -> P st -> P st'.
Proof.
  induction xs as [|x xs IH]; intros Hbody st st' Hrun HP; cbn in Hrun.
  - injection Hrun as <-. exact HP.
  - destruct (body x st) as [st1|e] eqn:Hx; cbn in Hrun; [|discriminate].
    eapply IH; [|exact Hrun|].
    + intros y s1 s2 Hy. apply Hbody. right. exact Hy.
    + eapply Hbody; [left|exact Hx|exact HP].
Qed.

Ltac row_facts Hlen :=
  unfold of_completion, completion_fields, has_proof, needs_proof;
  cbn [fst snd output_tokens completion advantages rewards task_rewards
       length_penalties proofs step prompt target_lengths input_tokens
       task_type acceptance_metadata proof_iter meta_iter];
  rewrite ?Hlen; eauto 20.

(** One turn of the inner loop. *)
Lemma inner_body_Ok request_output request_rewards prompt_ target_length step_
    pair (st st' : State) :
  inner_body request_output request_rewards prompt_ target_length step_
    pair st = Ok st' ->
  exists r,
    records st' = records st ++ [r] /\
    of_completion r = completion_fields pair /\
    has_proof r = needs_proof pair /\
    step r = step_ /\ prompt r = prompt_ /\ target_lengths r = target_length /\
    input_tokens r = RequestOutput.prompt_token_ids request_output /\
    task_type r = RequestRewards.task_type request_rewards /\
    CompletionOutput.index (fst pair)
      = CompletionReward.completion_id (snd pair) /\
    (if needs_proof pair
     then proof_iter st = proofs r :: proof_iter st'
     else proofs r = [] /\ proof_iter st' = proof_iter st) /\
    match meta_iter st with
    | Some ms =>
        exists m rest,
          ms = m :: rest /\ meta_iter st' = Some rest /\
          acceptance_metadata r = Some m
    | None => meta_iter st' = None /\ acceptance_metadata r = None
    end.
Proof.
  destruct pair as [output reward_]. unfold inner_body, needs_proof.
  cbn [fst snd].
  destruct (Z.eqb_spec (CompletionOutput.index output)
              (CompletionReward.completion_id reward_)) as [Hidx|];
    cbn [assert bind]; [|discriminate].
  destruct (1 <? length (CompletionOutput.token_ids output))%nat eqn:Hlen.
  - destruct (proof_iter st) as [|pf pfs]; cbn [next bind]; [discriminate|].
    destruct (meta_iter st) as [[|m ms]|]; cbn [next bind]; try discriminate;
      intros [= <-]; eexists; (split; [reflexivity|]); row_facts Hlen.
  - cbn [bind].
    destruct (meta_iter st) as [[|m ms]|]; cbn [next bind]; try discriminate;
      intros [= <-]; eexists; (split; [reflexivity|]); row_facts Hlen.
Qed.

Lemma inner_body_handed_out proofs0 metas0
    request_output request_rewards prompt_ target_length step_
    pair (st st' : State) :
  inner_body request_output request_rewards prompt_ target_length step_
    pair st = Ok st' ->
  handed_out proofs0 metas0 st -> handed_out proofs0 metas0 st'.
Proof.
  intros Hrun (Hpf & Hnone & Hmeta).
  destruct (inner_body_Ok _ _ _ _ _ _ _ _ Hrun)
    as (r & Hrec & _ & Hhas & _ & _ & _ & _ & _ & _ & Hproof & Hm).
  unfold handed_out. rewrite Hrec.
  rewrite filter_app, filter_cons, filter_nil, !map_app.
  split; [|split].
  - rewrite Hpf. rewrite <- Hhas in Hproof.
    destruct (has_proof r) eqn:Hr.
    + rewrite decide_True by reflexivity. rewrite Hproof.
      rewrite <- !app_assoc. reflexivity.
    + rewrite decide_False by discriminate. destruct Hproof as [_ ->].
      cbn. rewrite app_nil_r. reflexivity.
  - intros r' Hin Hr'. apply elem_of_app in Hin as [Hin|Hin]; [eauto|].
    apply list_elem_of_singleton in Hin as ->.
    rewrite <- Hhas, Hr' in Hproof. apply Hproof.
  - destruct metas0 as [ms0|].
    + destruct Hmeta as (rest & Hit & Hms). rewrite Hit in Hm.
      destruct Hm as (m & rest' & -> & Hit' & Hacc).
      exists rest'. split; [exact Hit'|].
      rewrite Hms. cbn. rewrite Hacc, <- app_assoc. reflexivity.
    + destruct Hmeta as [Hit Hall]. rewrite Hit in Hm.
      destruct Hm as [Hit' Hacc]. split; [exact Hit'|].
      apply Forall_app. split; [exact Hall|]. constructor; [exact Hacc|].
      constructor.
Qed.

Lemma outer_body_handed_out proofs0 metas0 step_ item (st st' : State) :
  outer_body step_ item st = Ok st' ->
  handed_out proofs0 metas0 st -> handed_out proofs0 metas0 st'.
Proof.
  destruct item as (ro & rr & p & tl). unfold outer_body.
  destruct (String.eqb _ _); cbn [assert bind]; [|discriminate].
  intros Hrun.
  apply (for_each_row_keeps (handed_out proofs0 metas0) _ _
           (fun pair s1 s2 _ =>
              inner_body_handed_out _ _ _ _ _ _ _ pair s1 s2)
           _ _ Hrun).
Qed.

Lemma collect_records_handed_out
    request_outputs request_rewards prompts proofs_ step_ target_lengths_
    (metas : option (list Meta)) rs :
  collect_records request_outputs request_rewards prompts proofs_ step_
    target_lengths_ metas = Ok rs ->
  exists st : State, records st = rs /\ handed_out proofs_ metas st.
Proof.
  unfold collect_records.
  destruct (for_each_row _ _ _) as [st|e] eqn:Hrun; cbn [bind]; [|discriminate].
  intros [= <-]. exists st. split; [reflexivity|].
  apply (for_each_row_keeps (handed_out proofs_ metas) _ _
           (fun item s1 s2 _ => outer_body_handed_out _ _ _ item s1 s2)
           _ _ Hrun).
  unfold handed_out. cbn. split; [reflexivity|]. split.
  - intros r Hr. inversion Hr.
  - destruct metas as [ms|].
    + exists ms. split; reflexivity.
    + split; [reflexivity | constructor].
Qed.

(** X19.  The proofs go to the records whose completion has more than one
    token, in the order of the records and of [proofs], one each from the
    front: what is left over of [proofs] is never looked at, and a call that
    returned did not need more proofs than it was given.  The other records
    hold the empty bytes. *)
Theorem proofs_are_handed_out_in_order
    request_outputs request_rewards prompts proofs_ step_ target_lengths_
    (metas : option (list Meta)) (rs : list (record Float Meta)) :
  collect_records request_outputs request_rewards prompts proofs_ step_
    target_lengths_ metas = Ok rs ->
  let with_proof := filter (fun r => has_proof r = true) rs in
  map proofs with_proof = take (length with_proof) proofs_ /\
  (length with_proof <= length proofs_)%nat /\
  forall r, r ∈ rs -> has_proof r = false -> proofs r = [].
Proof.
  intros Hrun with_proof.
  destruct (collect_records_handed_out _ _ _ _ _ _ _ _ Hrun)
    as (st & <- & Hpf & Hnone & _).
  fold with_proof in Hpf.
  assert (length (map proofs with_proof) = length with_proof) as Hlen
    by apply length_map.
  split; [|split; [|exact Hnone]].
  - rewrite Hpf, <- Hlen. rewrite take_app_length. reflexivity.
  - rewrite Hpf, length_app, length_map. lia.
Qed.

(** X20.  With metadata given, the [k]-th record holds the [k]-th entry of
    it: a call that returned had at least one entry for each record.  With
    no metadata given, no record has the key. *)
Theorem metadata_is_handed_out_in_order
    request_outputs request_rewards prompts proofs_ step_ target_lengths_
    (metas : option (list Meta)) (rs : list (record Float Meta)) :
  collect_records request_outputs request_rewards prompts proofs_ step_
    target_lengths_ metas = Ok rs ->
  match metas with
  | Some ms =>
      map acceptance_metadata rs = map Some (take (length rs) ms) /\
      (length rs <= length ms)%nat
  | None => Forall (fun r => acceptance_metadata r = None) rs
  end.
Proof.
  intros Hrun.
  destruct (collect_records_handed_out _ _ _ _ _ _ _ _ Hrun)
    as (st & <- & _ & _ & Hmeta).
  destruct metas as [ms|]; [|apply Hmeta].
  destruct Hmeta as (rest & _ & Hms).
  assert (length ms = length (records st) + length rest)%nat as Hlen.
  { rewrite <- (length_map Some ms), Hms, length_app, !length_map.
    reflexivity. }
  split; [|lia].
  rewrite <- (length_map acceptance_metadata (records st)).
  rewrite <- firstn_map, Hms. rewrite take_app_length. reflexivity.
Qed.

Lemma inner_loop_rows request_output request_rewards prompt_ target_length
    step_ pairs (st st' : State) :
  for_each_row pairs
    (inner_body request_output request_rewards prompt_ target_length step_)
    st = Ok st' ->
  map of_completion (records st')
    = map of_completion (records st) ++ map completion_fields pairs /\
  Forall (fun pair => CompletionOutput.index (fst pair)
                      = CompletionReward.completion_id (snd pair)) pairs /\
  (Forall (fun r => step r = step_) (records st) ->
   Forall (fun r => step r = step_) (records st')).
Proof.
  revert st. induction pairs as [|pair pairs IH]; intros st Hrun; cbn in Hrun.
  - injection Hrun as <-. cbn. rewrite app_nil_r. auto.
  - destruct (inner_body _ _ _ _ _ pair st) as [st1|e] eqn:Hb;
      cbn [bind] in Hrun; [|discriminate].
    destruct (inner_body_Ok _ _ _ _ _ _ _ _ Hb)
      as (r & Hrec & Hof & _ & Hstep & _ & _ & _ & _ & Hidx & _).
    destruct (IH _ Hrun) as (Hmap & Hall & Hsteps).
    rewrite Hmap, Hrec, map_app. cbn [map]. rewrite Hof, <- app_assoc.
    split; [reflexivity|]. split; [constructor; assumption|].
    intros Hst. apply Hsteps. rewrite Hrec. apply Forall_app.
    split; [exact Hst|]. constructor; [exact Hstep | constructor].
Qed.

Lemma outer_loop_rows step_ items (st st' : State) :
  for_each_row items (outer_body step_) st = Ok st' ->
  map of_completion (records st')
    = map of_completion (records st)
      ++ map completion_fields
           (concat
              (map (fun item : RequestOutput.t
                               * (RequestRewards.t Float * (string * Z)) =>
                      zip (RequestOutput.outputs (fst item))
                          (RequestRewards.rewards (fst (snd item))))
                 items)) /\
  Forall (fun item : RequestOutput.t * (RequestRewards.t Float * (string * Z)) =>
            RequestOutput.request_id (fst item)
            = RequestRewards.request_id (fst (snd item))) items /\
  Forall (fun pair => CompletionOutput.index (fst pair)
                      = CompletionReward.completion_id (snd pair))
    (concat
       (map (fun item : RequestOutput.t
                        * (RequestRewards.t Float * (string * Z)) =>
               zip (RequestOutput.outputs (fst item))
                   (RequestRewards.rewards (fst (snd item))))
          items)) /\
  (Forall (fun r => step r = step_) (records st) ->
   Forall (fun r => step r = step_) (records st')).
Proof.
  revert st. induction items as [|item items IH]; intros st Hrun; cbn in Hrun.
  - injection Hrun as <-. cbn. rewrite app_nil_r. auto.
  - destruct (outer_body step_ item st) as [st1|e] eqn:Hb;
      cbn [bind] in Hrun; [|discriminate].
    destruct item as (ro & rr & p & tl). unfold outer_body in Hb.
    destruct (String.eqb_spec (RequestOutput.request_id ro)
                (RequestRewards.request_id rr)) as [Hid|];
      cbn [assert bind] in Hb; [|discriminate].
    destruct (inner_loop_rows _ _ _ _ _ _ _ _ Hb) as (Hmap1 & Hidx1 & Hstep1).
    destruct (IH _ Hrun) as (Hmap & Hids & Hidx & Hsteps).
    cbn [map concat fst snd]. rewrite Hmap, Hmap1, map_app, <- app_assoc.
    split; [reflexivity|]. split; [constructor; assumption|].
    split; [apply Forall_app; split; assumption|]. auto.
Qed.

(** X21.  The records are the completions the loops went through, one record
    for each, in their order: a record holds the tokens and the text of its
    completion, the four numbers of its reward, and the step. *)
Theorem one_record_for_each_completion
    request_outputs request_rewards prompts proofs_ step_ target_lengths_
    (metas : option (list Meta)) (rs : list (record Float Meta)) :
  collect_records request_outputs request_rewards prompts proofs_ step_
    target_lengths_ metas = Ok rs ->
  map of_completion rs
    = map completion_fields
        (visited request_outputs request_rewards prompts target_lengths_) /\
  length rs
    = length (visited request_outputs request_rewards prompts target_lengths_)
  /\ Forall (fun r => step r = step_) rs.
Proof.
  unfold collect_records.
  destruct (for_each_row _ _ _) as [st|e] eqn:Hrun; cbn [bind]; [|discriminate].
  intros [= <-].
  destruct (outer_loop_rows _ _ _ _ Hrun) as (Hmap & _ & _ & Hstep).
  cbn in Hmap. fold (visited request_outputs request_rewards prompts
                       target_lengths_) in Hmap.
  split; [exact Hmap|]. split.
  - rewrite <- (length_map of_completion), Hmap, length_map. reflexivity.
  - apply Hstep. constructor.
Qed.

Lemma inner_body_returns request_output request_rewards prompt_
    target_length step_ pair (st : State) :
  CompletionOutput.index (fst pair)
    = CompletionReward.completion_id (snd pair) ->
  (needs_proof pair = true -> proof_iter st <> []) ->
  (forall ms, meta_iter st = Some ms -> ms <> []) ->
  exists st',
    inner_body request_output request_rewards prompt_ target_length step_
      pair st = Ok st'.
Proof.
  destruct pair as [output reward_]. unfold inner_body, needs_proof.
  cbn [fst snd]. intros Hidx Hpf Hms.
  rewrite (proj2 (Z.eqb_eq _ _) Hidx). cbn [assert bind].
  destruct (1 <? length (CompletionOutput.token_ids output))%nat.
  - destruct (proof_iter st) as [|pf pfs];
      [exfalso; apply Hpf; reflexivity|]. cbn [next bind].
    destruct (meta_iter st) as [[|m ms]|]; cbn [next bind]; eauto.
    exfalso. eapply Hms; reflexivity.
  - cbn [bind].
    destruct (meta_iter st) as [[|m ms]|]; cbn [next bind]; eauto.
    exfalso. eapply Hms; reflexivity.
Qed.

Lemma inner_loop_returns request_output request_rewards prompt_
    target_length step_ pairs (st : State) :
  Forall (fun pair => CompletionOutput.index (fst pair)
                      = CompletionReward.completion_id (snd pair)) pairs ->
  (length (filter (fun pair => needs_proof pair = true) pairs)
   <= length (proof_iter st))%nat ->
  (forall ms, meta_iter st = Some ms -> (length pairs <= length ms)%nat) ->
  exists st',
    for_each_row pairs
      (inner_body request_output request_rewards prompt_ target_length step_)
      st = Ok st' /\
    (length (proof_iter st')
     + length (filter (fun pair => needs_proof pair = true) pairs)
     = length (proof_iter st))%nat /\
    (forall ms, meta_iter st = Some ms ->
       exists ms', meta_iter st' = Some ms'
                   /\ (length ms' + length pairs = length ms)%nat) /\
    (meta_iter st = None -> meta_iter st' = None).
Proof.
  intros Hall. revert st.
  induction Hall as [|pair pairs Hidx _ IH]; intros st Hpf Hms.
  - exists st. cbn. split; [reflexivity|]. split; [lia|]. split; [|auto].
    intros ms Hm. exists ms. split; [exact Hm | lia].
  - rewrite filter_cons in Hpf |- *. cbn [for_each_row].
    destruct (inner_body_returns request_output request_rewards prompt_
                target_length step_ pair st Hidx) as [st1 Hb].
    { intros Hn. rewrite decide_True in Hpf by exact Hn.
      cbn [length] in Hpf.
      intros Hnil. rewrite Hnil in Hpf. cbn [length] in Hpf. lia. }
    { intros ms Hm ->. specialize (Hms _ Hm). cbn in Hms. lia. }
    rewrite Hb. cbn [bind].
    destruct (inner_body_Ok _ _ _ _ _ _ _ _ Hb)
      as (r & _ & _ & _ & _ & _ & _ & _ & _ & _ & Hproof & Hmeta).
    assert ((length (proof_iter st1)
             + (if needs_proof pair then 1 else 0) = length (proof_iter st))%nat)
      as Hlen1.
    { destruct (needs_proof pair).
      - rewrite Hproof. cbn [length]. lia.
      - destruct Hproof as [_ ->]. lia. }
    destruct (IH st1) as (st' & Hrun & Hlen & Hm' & Hnone).
    { destruct (needs_proof pair) eqn:Hn; cbn in Hlen1.
      - rewrite decide_True in Hpf by reflexivity. cbn [length] in Hpf. lia.
      - rewrite decide_False in Hpf by discriminate. lia. }
    { intros ms1 Hm1. destruct (meta_iter st) as [ms|].
      - destruct Hmeta as (m & rest & -> & Hit & _).
        specialize (Hms _ eq_refl). cbn in Hms.
        rewrite Hit in Hm1. injection Hm1 as <-. lia.
      - destruct Hmeta as [Hit _]. congruence. }
    exists st'. split; [exact Hrun|]. split; [|split].
    + destruct (needs_proof pair) eqn:Hn; cbn in Hlen1.
      * rewrite decide_True by reflexivity. cbn [length]. lia.
      * rewrite decide_False by discriminate. lia.
    + intros ms Hm. rewrite Hm in Hmeta.
      destruct Hmeta as (m & rest & -> & Hit & _).
      destruct (Hm' _ Hit) as (ms' & Hit' & Hl).
      exists ms'. split; [exact Hit'|]. cbn. lia.
    + intros Hm. rewrite Hm in Hmeta. destruct Hmeta as [Hit _]. auto.
Qed.

Lemma outer_loop_returns step_ items (st : State) :
  let completions :=
    concat
      (map (fun item : RequestOutput.t
                       * (RequestRewards.t Float * (string * Z)) =>
              zip (RequestOutput.outputs (fst item))
                  (RequestRewards.rewards (fst (snd item))))
         items) in
  Forall (fun item : RequestOutput.t * (RequestRewards.t Float * (string * Z)) =>
            RequestOutput.request_id (fst item)
            = RequestRewards.request_id (fst (snd item))) items ->
  Forall (fun pair => CompletionOutput.index (fst pair)
                      = CompletionReward.completion_id (snd pair))
    completions ->
  (length (filter (fun pair => needs_proof pair = true) completions)
   <= length (proof_iter st))%nat ->
  (forall ms, meta_iter st = Some ms ->
              (length completions <= length ms)%nat) ->
  exists st', for_each_row items (outer_body step_) st = Ok st'.
Proof.
  cbv zeta. intros Hids. revert st.
  induction Hids as [|item items Hid _ IH]; intros st Hidx Hpf Hms.
  - exists st. reflexivity.
  - destruct item as (ro & rr & p & tl). cbn [map concat fst snd] in *.
    apply Forall_app in Hidx as [Hidx1 Hidx2].
    rewrite filter_app, length_app in Hpf.
    destruct (inner_loop_returns ro rr p tl step_
                (zip (RequestOutput.outputs ro) (RequestRewards.rewards rr))
                st Hidx1 ltac:(lia))
      as (st1 & Hrun1 & Hlen1 & Hm1 & Hnone1).
    { intros ms Hm. specialize (Hms _ Hm). rewrite length_app in Hms. lia. }
    destruct (IH st1 Hidx2) as [st' Hrun].
    { lia. }
    { intros ms1 Hit1. destruct (meta_iter st) as [ms|] eqn:Hit.
      - destruct (Hm1 _ eq_refl) as (ms' & Hit' & Hl).
        specialize (Hms _ eq_refl). rewrite length_app in Hms.
        rewrite Hit' in Hit1. injection Hit1 as <-. lia.
      - rewrite Hnone1 in Hit1 by reflexivity. discriminate. }
    exists st'. cbn [for_each_row]. unfold outer_body at 1.
    rewrite (proj2 (String.eqb_eq _ _) Hid). cbn [assert bind].
    rewrite Hrun1. cbn [bind]. exact Hrun.
Qed.

Lemma filter_length_of_maps {A B C} (f : A -> C) (g : B -> C) (h : C -> bool)
    (xs : list A) (ys : list B) :
  map f xs = map g ys ->
  length (filter (fun x => h (f x) = true) xs)
  = length (filter (fun y => h (g y) = true) ys).
Proof.
  revert ys. induction xs as [|x xs IH]; intros [|y ys] Hmap;
    try discriminate; [reflexivity|].
  injection Hmap as Hxy Hrest. rewrite !filter_cons, Hxy.
  destruct (decide (h (g y) = true)); cbn; rewrite (IH _ Hrest); reflexivity.
Qed.

Lemma proofs_are_in_order_aux
    request_outputs request_rewards prompts proofs_ step_ target_lengths_
    (metas : option (list Meta)) (rs : list (record Float Meta)) :
  collect_records request_outputs request_rewards prompts proofs_ step_
    target_lengths_ metas = Ok rs ->
  (length (filter (fun r => has_proof r = true) rs) <= length proofs_)%nat /\
  match metas with
  | Some ms => (length rs <= length ms)%nat
  | None => True
  end.
Proof.
  intros Hrun.
  destruct (collect_records_handed_out _ _ _ _ _ _ _ _ Hrun)
    as (st & <- & Hpf & _ & Hmeta).
  split.
  - rewrite Hpf, length_app, length_map. lia.
  - destruct metas as [ms|]; [|exact I].
    destruct Hmeta as (rest & _ & Hms).
    rewrite <- (length_map Some ms), Hms, length_app, !length_map. lia.
Qed.

Lemma one_record_aux
    request_outputs request_rewards prompts proofs_ step_ target_lengths_
    (metas : option (list Meta)) (rs : list (record Float Meta)) :
  collect_records request_outputs request_rewards prompts proofs_ step_
    target_lengths_ metas = Ok rs ->
  map of_completion rs
    = map completion_fields
        (visited request_outputs request_rewards prompts target_lengths_) /\
  length rs
    = length (visited request_outputs request_rewards prompts target_lengths_)
  /\
  Forall (fun item : RequestOutput.t * (RequestRewards.t Float * (string * Z)) =>
            RequestOutput.request_id (fst item)
            = RequestRewards.request_id (fst (snd item)))
    (zip request_outputs (zip request_rewards (zip prompts target_lengths_)))
  /\ Forall (fun pair => CompletionOutput.index (fst pair)
                         = CompletionReward.completion_id (snd pair))
       (visited request_outputs request_rewards prompts target_lengths_).
Proof.
  unfold collect_records.
  destruct (for_each_row _ _ _) as [st|e] eqn:Hrun; cbn [bind]; [|discriminate].
  intros [= <-].
  destruct (outer_loop_rows _ _ _ _ Hrun) as (Hmap & Hids & Hidx & _).
  cbn [records map app] in Hmap.
  fold (visited request_outputs request_rewards prompts target_lengths_)
    in Hmap, Hidx.
  split; [exact Hmap|]. split; [|split; assumption].
  rewrite <- (length_map of_completion), Hmap, length_map. reflexivity.
Qed.

(** X22.  When the records are made and when not.  The pass over the
    completions returns exactly when the request ids of the paired requests
    agree, the index of each completion is the id of its reward, [proofs]
    has an entry for each completion of more than one token, and the
    metadata, if given, an entry for each completion.  Otherwise it raises. *)
Theorem records_are_made_exactly_when_inputs_agree
    request_outputs request_rewards prompts proofs_ step_ target_lengths_
    (metas : option (list Meta)) :
  let completions :=
    visited request_outputs request_rewards prompts target_lengths_ in
  (exists rs : list (record Float Meta),
     collect_records request_outputs request_rewards prompts proofs_ step_
       target_lengths_ metas = Ok rs) <->
  Forall (fun item : RequestOutput.t * (RequestRewards.t Float * (string * Z)) =>
            RequestOutput.request_id (fst item)
            = RequestRewards.request_id (fst (snd item)))
    (zip request_outputs (zip request_rewards (zip prompts target_lengths_)))
  /\ Forall (fun pair => CompletionOutput.index (fst pair)
                         = CompletionReward.completion_id (snd pair))
       completions
  /\ (length (filter (fun pair => needs_proof pair = true) completions)
      <= length proofs_)%nat
  /\ (forall ms, metas = Some ms -> (length completions <= length ms)%nat).
Proof.
  intros completions. split.
  - intros [rs Hrun].
    destruct (proofs_are_in_order_aux _ _ _ _ _ _ _ _ Hrun) as (Hpf & Hmeta).
    destruct (one_record_aux _ _ _ _ _ _ _ _ Hrun)
      as (Hmap & Hlen & Hids & Hidx).
    fold completions in Hmap, Hlen, Hidx.
    split; [exact Hids|]. split; [exact Hidx|]. split.
    + assert (length (filter (fun r => has_proof r = true) rs)
              = length (filter (fun pair => needs_proof pair = true)
                          completions)) as <-
        by exact (filter_length_of_maps of_completion completion_fields
                    (fun c => (1 <? length (fst (fst c)))%nat) rs completions
                    Hmap).
      exact Hpf.
    + intros ms ->. rewrite <- Hlen. exact Hmeta.
  - intros (Hids & Hidx & Hpf & Hms). unfold collect_records.
    destruct (outer_loop_returns step_ _
                (mk_state proofs_ metas []) Hids Hidx Hpf Hms) as [st' Hrun].
    rewrite Hrun. cbn [bind]. eauto.
Qed.

End Parquet_rows.

(** * The further properties at concrete inputs *)

Lemma window_holds_the_latest_versions_witness :
  0 < 2 /\ window 2 (sorted [5; 3; 4]) = [4; 5].
Proof.
  assert (H : 0 < 2) by lia. split; [exact H|].
  exact (proj1 (window_holds_the_latest_versions 2 [5; 3; 4] H)).
Defined.

Lemma negative_window_drops_the_oldest_witness :
  -1 < 0 /\ window (-1) [3; 4; 5] = [4; 5].
Proof.
  assert (H : -1 < 0) by lia. split; [exact H|].
  exact (negative_window_drops_the_oldest (-1) [3; 4; 5] H).
Defined.

Lemma fetched_version_is_marked_stable_witness :
  7 ∈ [7] /\
  (model_safetensors 7 ∉ fs fresh_store) /\
  step_dir 7 ∈ with_payload_7 ∅ /\
  main_for_body (scripted_client fetch_ok) (-1) [7] 7 fresh_store =
    (mkStore ∅ (∅ ∖ {[7]}) (-1) [] ({[stable 7]} ∪ with_payload_7 ∅)
       [Log INFO (Downloading_version 7); Call_download_version 7;
        Log INFO (Downloaded_version 7); Call_touch (stable 7)],
     Normal tt).
Proof.
  assert (H1 : 7 ∈ [7]) by by_computing.
  assert (H2 : model_safetensors 7 ∉ fs fresh_store) by by_computing.
  assert (H3 : step_dir 7 ∈ with_payload_7 ∅) by by_computing.
  repeat (split; [assumption|]).
  exact (fetched_version_is_marked_stable (scripted_client fetch_ok) [7] 7
           fresh_store [] (with_payload_7 ∅) (model_safetensors 7)
           H1 H2 eq_refl H3).
Defined.

Lemma missing_directory_counts_as_failed_fetch_witness :
  7 ∈ [7] /\
  (model_safetensors 7 ∉ (∅ : gset path)) /\
  (step_dir 7 ∉ (∅ : gset path)) /\
  main_for_body pathless_client 2 [7] 7 (initial (-1) tt ∅) =
    (mkStore ∅ ({[7]} ∪ ∅) (-1) tt ∅
       [Log INFO (Downloading_version 7); Call_download_version 7;
        Log INFO (Downloaded_version 7); Call_touch (stable 7);
        Log WARNING (Error_downloading_version 7 FileNotFoundError)],
     Normal tt).
Proof.
  assert (H1 : 7 ∈ [7]) by by_computing.
  assert (H2 : model_safetensors 7 ∉ (∅ : gset path)) by by_computing.
  assert (H3 : step_dir 7 ∉ (∅ : gset path)) by by_computing.
  repeat (split; [assumption|]).
  exact (missing_directory_counts_as_failed_fetch pathless_client 2 [7] 7
           (initial (-1) tt ∅) tt ∅ (model_safetensors 7) H1 H2 eq_refl H3).
Defined.

Lemma expired_version_is_removed_witness :
  2 <> -1 /\
  7 ∈ [7] /\
  (model_safetensors 7 ∉ disk_with_5) /\
  step_dir 7 ∈ with_payload_7 disk_with_5 /\
  model_safetensors (7 - 2) ∈ with_payload_7 disk_with_5 /\
  stable (7 - 2) ∈ ({[stable 7]} ∪ with_payload_7 disk_with_5 : gset path) /\
  fs (fst (main_for_body (scripted_client fetch_ok) 2 [7] 7
             (initial (-1) [] disk_with_5)))
  = ({[stable 7]} ∪ with_payload_7 disk_with_5)
      ∖ {[model_safetensors (7 - 2)]} ∖ {[stable (7 - 2)]}.
Proof.
  assert (H0 : 2 <> -1) by lia.
  assert (H1 : 7 ∈ [7]) by by_computing.
  assert (H2 : model_safetensors 7 ∉ disk_with_5) by by_computing.
  assert (H3 : step_dir 7 ∈ with_payload_7 disk_with_5) by by_computing.
  assert (H4 : model_safetensors (7 - 2) ∈ with_payload_7 disk_with_5)
    by by_computing.
  assert (H5 : stable (7 - 2)
               ∈ ({[stable 7]} ∪ with_payload_7 disk_with_5 : gset path))
    by by_computing.
  repeat (split; [assumption|]).
  exact (f_equal (fun r => fs (fst r))
           (expired_version_is_removed (scripted_client fetch_ok) 2 [7] 7
              (initial (-1) [] disk_with_5) [] (with_payload_7 disk_with_5)
              (model_safetensors 7) H0 H1 H2 eq_refl H3 H4 H5)).
Defined.

Lemma zero_horizon_removes_what_it_fetched_witness :
  7 ∈ [7] /\
  (model_safetensors 7 ∉ fs fresh_store) /\
  step_dir 7 ∈ with_payload_7 ∅ /\
  model_safetensors 7 ∈ with_payload_7 ∅ /\
  (model_safetensors 7
     ∉ fs (fst (main_for_body (scripted_client fetch_ok) 0 [7] 7
                  fresh_store))).
Proof.
  assert (H1 : 7 ∈ [7]) by by_computing.
  assert (H2 : model_safetensors 7 ∉ fs fresh_store) by by_computing.
  assert (H3 : step_dir 7 ∈ with_payload_7 ∅) by by_computing.
  assert (H4 : model_safetensors 7 ∈ with_payload_7 ∅) by by_computing.
  repeat (split; [assumption|]).
  exact (proj1 (zero_horizon_removes_what_it_fetched
                  (scripted_client fetch_ok) [7] 7 fresh_store []
                  (with_payload_7 ∅) (model_safetensors 7)
                  H1 H2 eq_refl H3 H4)).
Defined.

Lemma marker_is_touched_only_after_a_fetch_witness :
  Call_touch (stable 7)
    ∈ added_events fresh_store
        (fst (main_for_body (scripted_client fetch_ok) 2 [7] 7 fresh_store))
  /\ 7 ∈ [7].
Proof.
  assert (H : Call_touch (stable 7)
              ∈ added_events fresh_store
                  (fst (main_for_body (scripted_client fetch_ok) 2 [7] 7
                          fresh_store))) by by_computing.
  split; [exact H|].
  exact (proj1 (proj2 (marker_is_touched_only_after_a_fetch
                         (scripted_client fetch_ok) 2 [7] 7 fresh_store
                         (stable 7) H))).
Defined.

Lemma only_the_expired_version_is_unlinked_witness :
  Call_unlink (model_safetensors 5)
    ∈ added_events fresh_store
        (fst (main_for_body (scripted_client fetch_ok) 2 [7] 7 fresh_store))
  /\ 2 <> -1.
Proof.
  assert (H : Call_unlink (model_safetensors 5)
              ∈ added_events fresh_store
                  (fst (main_for_body (scripted_client fetch_ok) 2 [7] 7
                          fresh_store))) by by_computing.
  split; [exact H|].
  exact (proj1 (only_the_expired_version_is_unlinked
                  (scripted_client fetch_ok) 2 [7] 7 fresh_store
                  (model_safetensors 5) H)).
Defined.

Lemma poll_exception_ends_the_loop_witness :
  list_available_versions unreachable_client tt
    = (tt, Raised (OtherException "ConnectionError")) /\
  main_loop unreachable_client 2 2 3 (initial (-1) tt ∅) =
    (mkStore ∅ ∅ (-1) tt ∅ [Call_list_available_versions],
     Raised (OtherException "ConnectionError")).
Proof.
  split; [reflexivity|].
  exact (poll_exception_ends_the_loop unreachable_client 2 2
           (initial (-1) tt ∅) tt (OtherException "ConnectionError") 2
           eq_refl).
Defined.

Lemma missing_versions_are_targets_witness :
  [10] <> [] /\
  missing_versions
    (fst (main_while_body (scripted_client fetch_ok) 2 2
            (initial 3 late_catalogs ∅)))
  ⊆ target_set 2 (sorted [10]) (initial 3 late_catalogs ∅).
Proof.
  assert (H : [10] <> @nil Z) by discriminate.
  split; [exact H|].
  exact (proj2 (missing_versions_are_targets (scripted_client fetch_ok) 2 2
                  (initial 3 late_catalogs ∅) [[3; 10]] [10] eq_refl H)).
Defined.

Lemma scripted_fetch_ok_well_behaved : well_behaved (scripted_client fetch_ok).
Proof.
  intros v n files n' files' r Hdl. cbn in Hdl. injection Hdl as <- <- <-.
  split.
  - intros Hfs u Hu.
    assert (stable u ∈ files) as Hin by set_solver.
    apply Hfs in Hin. set_solver.
  - intros p _. set_solver.
Qed.


Lemma grouped_world_info_locates_the_rank_witness :
  WorldInfo.py_or (Some [2; 3]) (WorldInfo.NODE_GROUP_SIZES WorldInfo.envs4)
    = Some [2; 3] /\
  [2; 3] <> [] /\
  WorldInfo.__init__ WorldInfo.envs4 0 (Some 3) (Some 5) None None
    (Some [2; 3])
    = WorldInfo.Ok (WorldInfo.mk 3 5 (Some [2; 3]) 1 3 1 2 [] 0) /\
  [2; 3] !! Z.to_nat 1 = Some 3.
Proof.
  assert (H1 : [2; 3] <> @nil Z) by discriminate.
  split; [reflexivity|]. split; [exact H1|]. split; [reflexivity|].
  exact (proj1 (proj2 (proj2 (proj2
    (grouped_world_info_locates_the_rank WorldInfo.envs4 0 (Some 3) (Some 5)
       None None (Some [2; 3]) [2; 3]
       (WorldInfo.mk 3 5 (Some [2; 3]) 1 3 1 2 [] 0)
       eq_refl H1 eq_refl))))).
Defined.

Lemma grouped_world_info_is_built_witness :
  [2; 3] <> [] /\
  Forall (fun size => 0 <= size) [2; 3] /\
  0 <= 3 < 5 /\
  exists w,
    WorldInfo.__init__ WorldInfo.envs4 0 (Some 3) (Some 5) None None
      (Some [2; 3]) = WorldInfo.Ok w.
Proof.
  assert (H1 : [2; 3] <> @nil Z) by discriminate.
  assert (H2 : Forall (fun size => 0 <= size) [2; 3])
    by (repeat constructor; lia).
  assert (H3 : 0 <= 3 < 5) by lia.
  repeat (split; [assumption|]).
  exact (grouped_world_info_is_built WorldInfo.envs4 0 (Some 3) (Some 5)
           None None (Some [2; 3]) [2; 3] eq_refl H1 H2 eq_refl H3).
Defined.

Lemma flat_world_info_is_checked_witness :
  WorldInfo.py_or None (WorldInfo.NODE_GROUP_SIZES WorldInfo.envs4) = None /\
  ((exists w,
      WorldInfo.__init__ WorldInfo.envs4 0 None None None None None
        = WorldInfo.Ok w) <->
   0 <= 1 < 4 /\ 0 <= 1 < 4 /\ 4 mod 4 = 0).
Proof.
  split; [reflexivity|].
  exact (proj1 (proj2 (flat_world_info_is_checked WorldInfo.envs4 0
                         None None None None None eq_refl))).
Defined.

Lemma world_info_is_built_once_witness :
  WorldInfo.get_world_info WorldInfo.envs4 0 None None None None None None
    = (Some (WorldInfo.mk 1 4 None 1 4 0 1 [] 0),
       WorldInfo.Ok (WorldInfo.mk 1 4 None 1 4 0 1 [] 0)) /\
  WorldInfo.get_world_info WorldInfo.envs4 8 (Some 3) (Some 5) None None
    (Some [2; 3]) (Some (WorldInfo.mk 1 4 None 1 4 0 1 [] 0))
    = (Some (WorldInfo.mk 1 4 None 1 4 0 1 [] 0),
       WorldInfo.Ok (WorldInfo.mk 1 4 None 1 4 0 1 [] 0)).
Proof.
  split; [reflexivity|].
  exact (proj2 (world_info_is_built_once WorldInfo.envs4 0 None None None
                  None None None _ _ eq_refl)
           WorldInfo.envs4 8%nat (Some 3) (Some 5) None None (Some [2; 3])).
Defined.

Lemma failed_world_info_is_not_kept_witness :
  WorldInfo.get_world_info WorldInfo.envs4 0 (Some 9) None None None None None
    = (None, WorldInfo.Raise (WorldInfo.AssertionError "")) /\
  WorldInfo.__init__ WorldInfo.envs4 0 (Some 9) None None None None
    = WorldInfo.Raise (WorldInfo.AssertionError "").
Proof.
  split; [reflexivity|].
  exact (proj1 (proj2 (proj2
    (failed_world_info_is_not_kept WorldInfo.envs4 0 (Some 9) None None None
       None None None (WorldInfo.AssertionError "") eq_refl)))).
Defined.

Lemma proofs_are_handed_out_in_order_witness :
  Parquet.collect_records [example_output] [example_rewards] ["p"]
    example_proofs 3 [100] (Some [7; 8; 9]) = Parquet.Ok example_records /\
  map Parquet.proofs
    (filter (fun r => Parquet.has_proof r = true) example_records)
  = take (length (filter (fun r => Parquet.has_proof r = true)
                    example_records)) example_proofs.
Proof.
  split; [reflexivity|].
  exact (proj1 (proofs_are_handed_out_in_order [example_output]
                  [example_rewards] ["p"] example_proofs 3 [100]
                  (Some [7; 8; 9]) example_records eq_refl)).
Defined.

Lemma metadata_is_handed_out_in_order_witness :
  Parquet.collect_records [example_output] [example_rewards] ["p"]
    example_proofs 3 [100] (Some [7; 8; 9]) = Parquet.Ok example_records /\
  map Parquet.acceptance_metadata example_records
  = map Some (take (length example_records) [7; 8; 9]).
Proof.
  split; [reflexivity|].
  exact (proj1 (metadata_is_handed_out_in_order [example_output]
                  [example_rewards] ["p"] example_proofs 3 [100]
                  (Some [7; 8; 9]) example_records eq_refl)).
Defined.

Lemma one_record_for_each_completion_witness :
  Parquet.collect_records [example_output] [example_rewards] ["p"]
    example_proofs 3 [100] (Some [7; 8; 9]) = Parquet.Ok example_records /\
  length example_records
  = length (Parquet.visited [example_output] [example_rewards] ["p"] [100]).
Proof.
  split; [reflexivity|].
  exact (proj1 (proj2 (one_record_for_each_completion [example_output]
                         [example_rewards] ["p"] example_proofs 3 [100]
                         (Some [7; 8; 9]) example_records eq_refl))).
Defined.
